(** * build_questions.py: the question-bank parser

    A shallow embedding of [src/build_questions.py] and the properties of
    its parser, answer-key resolver and category mapper.

    Python values are modelled as follows.
    - A [str] is the list of its Unicode code points ([Z]); [ord] of a
      one-character string is that code point.
    - The cursor [i] into [lines] of [parse_category] is represented by the
      lines that remain, [lines[i:]]: [i < len(lines)] is "the remainder is
      not empty", [lines[i]] is its head and [i += 1] drops the head.
    - The three regular expressions are data, run by a small backtracking
      matcher with the priorities of Python's [re] (greedy, lazy, optional).
    - [categories] and [skipped_by_cat] are dictionaries keyed by category
      name ([gmap]); [js_obj] is the list of its (key, value) pairs in
      insertion order, which is the order [json.dump] writes.
    - The calls of [print] are collected as a list of structured lines.
    - [ord] of a string of another length raises [TypeError], which is
      modelled by the [result] type.
    - [int] is modelled on the digit runs it accepts.  CPython from 3.11 on
      refuses a run of more than [int_max_str_digits] digits with
      [ValueError]; the functions below describe the runs in which no
      question header has such an ordinal ([within_int_limit]), and the
      statements about the value of an ordinal or about the exception of a
      run carry that condition.
    - Unicode tables (white space, decimal digits) are those of Unicode 14. *)

From Stdlib Require Import ZArith List String Ascii Bool Lia.
From stdpp Require Import base option list gmap.
Import ListNotations.
Open Scope string_scope.
Open Scope list_scope.
Open Scope Z_scope.

(** ** Python strings *)

Abbreviation char := Z (only parsing).
Abbreviation str := (list Z) (only parsing).

(** An ASCII literal of this file as a Python string. *)
Definition py (s : string) : str :=
  List.map (fun a => Z.of_N (N_of_ascii a)) (list_ascii_of_string s).

Definition str_eqb (a b : str) : bool := bool_decide (a = b).

Definition in_range (lo hi c : Z) : bool := (lo <=? c) && (c <=? hi).

(** [str.isspace] on one character, which is also the class [\s] of [re]
    on a [str] pattern. *)
Definition is_space (c : char) : bool :=
  in_range 9 13 c || in_range 28 32 c || (c =? 133) || (c =? 160)
  || (c =? 5760) || in_range 8192 8202 c || (c =? 8232) || (c =? 8233)
  || (c =? 8239) || (c =? 8287) || (c =? 12288).

(** The code points of the characters DIGIT ZERO of every script: each is
    followed by its digits one to nine (general category Nd). *)
Definition decimal_zeros : list Z :=
  [48; 1632; 1776; 1984; 2406; 2534; 2662; 2790; 2918; 3046; 3174; 3302;
   3430; 3558; 3664; 3792; 3872; 4160; 4240; 6112; 6160; 6470; 6608; 6784;
   6800; 6992; 7088; 7232; 7248; 42528; 43216; 43264; 43472; 43504; 43600;
   44016; 65296; 66720; 68912; 69734; 69872; 69942; 70096; 70384; 70736;
   70864; 71248; 71360; 71472; 71904; 72016; 72784; 73040; 73120; 92768;
   92864; 93008; 120782; 120792; 120802; 120812; 120822; 123200; 123632;
   125264; 130032].

(** The value of a decimal digit, [None] on any other character. *)
Definition decimal_value (c : char) : option Z :=
  match List.find (fun z => in_range z (z + 9) c) decimal_zeros with
  | Some z => Some (c - z)
  | None => None
  end.

(** The class [\d]. *)
Definition is_digit (c : char) : bool :=
  match decimal_value c with Some _ => true | None => false end.

(** The default of [sys.int_max_str_digits] in CPython from 3.11 on:
    [int] raises [ValueError] on a run of more digits. *)
Definition int_max_str_digits : nat := 4300.

(** [int(s)] on a string of decimal digits (as [\d+] captures it) that
    [int] accepts: the number that the digits write. *)
Definition int_of_digits (s : str) : Z :=
  fold_left (fun acc c => 10 * acc + default 0 (decimal_value c)) s 0.

(** [s.strip()]. *)
Fixpoint lstrip (s : str) : str :=
  match s with
  | c :: s' => if is_space c then lstrip s' else s
  | [] => []
  end.

Definition rstrip (s : str) : str := rev (lstrip (rev s)).

Definition strip (s : str) : str := rstrip (lstrip s).

(** [sep.join(parts)]. *)
Fixpoint join (sep : str) (parts : list str) : str :=
  match parts with
  | [] => []
  | [p] => p
  | p :: ps => p ++ sep ++ join sep ps
  end.

(** [s.startswith(prefix)]. *)
Fixpoint startswith (s prefix : str) : bool :=
  match prefix, s with
  | [], _ => true
  | p :: prefix', c :: s' => (c =? p) && startswith s' prefix'
  | _ :: _, [] => false
  end.

(** [s.split(sep)] for a one-character separator: never empty. *)
Fixpoint split_on (sep : char) (s : str) : list str :=
  match s with
  | [] => [[]]
  | c :: s' =>
      if c =? sep then [] :: split_on sep s'
      else match split_on sep s' with
           | p :: ps => (c :: p) :: ps
           | [] => [[c]]
           end
  end.

(** [s.split(sep, 1)]: at most one split, at the first separator. *)
Fixpoint split_once (sep : char) (s : str) : list str :=
  match s with
  | [] => [[]]
  | c :: s' =>
      if c =? sep then [[]; s']
      else match split_once sep s' with
           | p :: ps => (c :: p) :: ps
           | [] => [[c]]
           end
  end.

(** The line boundaries of [str.splitlines]. *)
Definition is_linebreak (c : char) : bool :=
  in_range 10 13 c || in_range 28 30 c || (c =? 133) || (c =? 8232)
  || (c =? 8233).

(** [text.splitlines()]: [cur] is the current line, reversed; [after_cr]
    says that the previous character was a carriage return, whose line
    feed belongs to the same boundary.  A last line without a boundary is
    kept when it is not empty. *)
Fixpoint splitlines_from (cur : str) (after_cr : bool) (text : str)
  : list str :=
  match text with
  | [] => match cur with [] => [] | _ :: _ => [rev cur] end
  | c :: text' =>
      if after_cr && (c =? 10) then splitlines_from cur false text'
      else if is_linebreak c
           then rev cur :: splitlines_from [] (c =? 13) text'
           else splitlines_from (c :: cur) false text'
  end.

Definition splitlines (text : str) : list str :=
  splitlines_from [] false text.

(** [s.strip().lower().startswith("options")].  A character whose lower
    case starts with one of the letters of "options" is that letter, its
    ASCII capital or, for "i", U+0130, and the lower case of U+0130 is "i"
    followed by U+0307, which is not the "o" that must follow: so the test
    holds exactly when the first seven characters of the stripped line are
    the letters of "options" in either ASCII case. *)
Definition ascii_ci (p c : char) : bool := (c =? p) || (c =? p - 32).

Fixpoint startswith_ci (s prefix : str) : bool :=
  match prefix, s with
  | [], _ => true
  | p :: prefix', c :: s' => ascii_ci p c && startswith_ci s' prefix'
  | _ :: _, [] => false
  end.

Definition is_options_marker (line : str) : bool :=
  startswith_ci (strip line) (py "options").

(** ** Regular expressions

    The patterns of the program are sequences of one-character classes
    under a quantifier, some of them capturing, and the anchor [$].  The
    matcher tries the alternatives in the order of [re]: a greedy
    quantifier takes as much as it can and gives back one character at a
    time, a lazy one takes as little as it can, an optional item is tried
    present before absent.  The result is the list of captured groups of
    the first alternative that succeeds. *)

Inductive quant := One | Optional | Star | Plus | LazyStar.

Inductive node :=
| Item (cls : char -> bool) (q : quant) (capture : bool)
| EndOfString.

Definition regex := list node.

Section Matcher.
(** What the rest of the pattern does with the characters an item took
    ([taken]) and the text that remains. *)
Variable k : str -> str -> option (list str).
Variable cls : char -> bool.

Fixpoint greedy (taken s : str) : option (list str) :=
  match s with
  | c :: s' =>
      if cls c
      then match greedy (taken ++ [c]) s' with
           | Some groups => Some groups
           | None => k taken s
           end
      else k taken s
  | [] => k taken s
  end.

Fixpoint lazy (taken s : str) : option (list str) :=
  match k taken s with
  | Some groups => Some groups
  | None =>
      match s with
      | c :: s' => if cls c then lazy (taken ++ [c]) s' else None
      | [] => None
      end
  end.

Definition match_item (q : quant) (s : str) : option (list str) :=
  match q with
  | One =>
      match s with
      | c :: s' => if cls c then k [c] s' else None
      | [] => None
      end
  | Optional =>
      match s with
      | c :: s' =>
          if cls c
          then match k [c] s' with
               | Some groups => Some groups
               | None => k [] s
               end
          else k [] s
      | [] => k [] s
      end
  | Star => greedy [] s
  | Plus =>
      match s with
      | c :: s' => if cls c then greedy [c] s' else None
      | [] => None
      end
  | LazyStar => lazy [] s
  end.
End Matcher.

(** [$] without MULTILINE: the end of the string, or just before a line
    feed that ends it. *)
Definition at_end (s : str) : bool :=
  match s with
  | [] => true
  | [c] => c =? 10
  | _ => false
  end.

(** [pattern.match(s)]: the groups, in order, when the pattern matches a
    prefix of [s]. *)
Fixpoint re_match_from (pat : regex) (groups : list str) (s : str)
  : option (list str) :=
  match pat with
  | [] => Some groups
  | Item cls q capture :: pat' =>
      match_item
        (fun taken rest =>
           re_match_from pat' (if capture then groups ++ [taken] else groups)
                         rest)
        cls q s
  | EndOfString :: pat' =>
      if at_end s then re_match_from pat' groups s else None
  end.

Definition re_match (pat : regex) (s : str) : option (list str) :=
  re_match_from pat [] s.

(** Character classes. *)
Definition chr_is (p : char) : char -> bool := fun c => c =? p.
(** [.] without DOTALL. *)
Definition any_char : char -> bool := fun c => negb (c =? 10).
(** [[A-Z]]. *)
Definition upper_AZ : char -> bool := in_range 65 90.
(** A lower-case ASCII letter under IGNORECASE: the letter, its capital
    and, for "s", U+017F (LATIN SMALL LETTER LONG S). *)
Definition chr_ci (p : char) : char -> bool :=
  fun c => ascii_ci p c || ((p =? 115) && (c =? 383)).

(** A literal text, and one under IGNORECASE. *)
Definition lit (s : string) : regex :=
  List.map (fun p => Item (chr_is p) One false) (py s).
Definition lit_ci (s : string) : regex :=
  List.map (fun p => Item (chr_ci p) One false) (py s).

(** [QUESTION_RE = re.compile(r'^Question\s+(\d+):')] *)
Definition QUESTION_RE : regex :=
  lit "Question" ++ [Item is_space Plus false; Item is_digit Plus true]
  ++ lit ":".

(** [CORRECT_RE = re.compile(
      r'^\s*Correct\s+Answer[s]?\s*\(?.*?\)?:\s*(.+)$', re.IGNORECASE)] *)
Definition CORRECT_RE : regex :=
  [Item is_space Star false] ++ lit_ci "correct"
  ++ [Item is_space Plus false] ++ lit_ci "answer"
  ++ [Item (chr_ci 115) Optional false; Item is_space Star false;
      Item (chr_is 40) Optional false; Item any_char LazyStar false;
      Item (chr_is 41) Optional false; Item (chr_is 58) One false;
      Item is_space Star false; Item any_char Plus true; EndOfString].

(** The pattern of an option line: optional white space, one capital
    letter (group 1), a full stop, optional white space, and the rest of
    the line (group 2, a greedy star over [.]). *)
Definition OPTION_RE : regex :=
  [Item is_space Star false; Item upper_AZ One true;
   Item (chr_is 46) One false; Item is_space Star false;
   Item any_char Star true].

(** ** Parsed questions and console lines *)

(** The dictionary that [parse_category] appends to [out]. *)
Record parsed := mk_parsed {
  num : Z;
  question : str;
  options : list (str * str);
  correct_letters : list str
}.

(** The value of the key ["correct"]: [indices[0]] or [indices]. *)
Inductive correct_field :=
| Single (index : Z)
| Multi (indices : list Z).

(** The dictionary that [main] appends to [js_questions]. *)
Record js_record := mk_js {
  js_id : Z;
  js_question : str;
  js_options : list str;
  correct : correct_field
}.

(** The calls of [print], with the values they interpolate: the warning
    of [parse_category]; in [main], the report of a category, the two
    lines of the listing of its skipped ordinals, the line that names the
    output file, and the count of a key. *)
Inductive log_line :=
| WarnNoOptions (cat_name : str) (num : Z)
| CategoryReport (cat_name key : str) (included missing : nat)
| SkippedListing (cat_name : str) (nums : list Z)
| WroteTo (output_file : str)
| WroteCount (key : str) (count : nat).

(** [OUTPUT_FILE] *)
Definition OUTPUT_FILE : str := py "questions.js".

(** ** [parse_category] *)

(** [not line.strip()] *)
Definition is_blank (line : str) : bool :=
  match strip line with [] => true | _ :: _ => false end.

(** [QUESTION_RE.match(line)] and [int(m.group(1))]. *)
Definition question_header (line : str) : option Z :=
  match re_match QUESTION_RE line with
  | Some (digits :: _) => Some (int_of_digits digits)
  | _ => None
  end.

(** The option pattern on a line: [(letter, text.strip())]. *)
Definition option_line (line : str) : option (str * str) :=
  match re_match OPTION_RE line with
  | Some (letter :: text :: _) => Some (letter, strip text)
  | _ => None
  end.

(** [[p.strip() for p in part.split(",") if p.strip()]] *)
Definition split_letters (part : str) : list str :=
  List.map strip
           (List.filter (fun p => negb (is_blank p)) (split_on 44 part)).

(** [CORRECT_RE.match(line)] and the letters of [m_corr.group(1).strip()]. *)
Definition answer_line (line : str) : option (list str) :=
  match re_match CORRECT_RE line with
  | Some (part :: _) => Some (split_letters (strip part))
  | _ => None
  end.

(** [while i < len(lines) and not lines[i].strip(): i += 1] *)
Fixpoint skip_blank (lines : list str) : list str :=
  match lines with
  | line :: lines' => if is_blank line then skip_blank lines' else lines
  | [] => []
  end.

(** The question text: the stripped lines up to a blank line, and the
    lines that remain. *)
Fixpoint read_prompt (lines : list str) : list str * list str :=
  match lines with
  | line :: lines' =>
      if is_blank line then ([], lines)
      else let (q_lines, remaining) := read_prompt lines' in
           (strip line :: q_lines, remaining)
  | [] => ([], [])
  end.

(** The options: every line up to a blank line is consumed, and those
    that match the option pattern contribute a pair. *)
Fixpoint read_options (lines : list str)
  : list (str * str) * list str :=
  match lines with
  | line :: lines' =>
      if is_blank line then ([], lines)
      else let (opts, remaining) := read_options lines' in
           (match option_line line with
            | Some o => o :: opts
            | None => opts
            end, remaining)
  | [] => ([], [])
  end.

(** The state of the loop of [parse_category]: the lines from the cursor
    on, the two lists it builds, and what it printed. *)
Record pstate := mk_pstate {
  remaining : list str;
  out : list parsed;
  skipped_missing_answer : list Z;
  printed : list log_line
}.

(** One iteration of [while i < len(lines)]. *)
Definition step (cat_name : str) (st : pstate) : pstate :=
  match remaining st with
  | [] => st
  | line :: after_header =>
      match question_header line with
      | None =>
          mk_pstate after_header (out st) (skipped_missing_answer st)
                    (printed st)
      | Some n =>
          let (q_lines, after_prompt) :=
            read_prompt (skip_blank after_header) in
          let text := strip (join (py " ") q_lines) in
          let at_marker := skip_blank after_prompt in
          match at_marker with
          | marker :: after_marker =>
              if is_options_marker marker then
                let (opts, after_options) := read_options after_marker in
                let at_answer := skip_blank after_options in
                match at_answer with
                | answer :: after_answer =>
                    match answer_line answer with
                    | Some letters =>
                        mk_pstate after_answer
                                  (out st ++ [mk_parsed n text opts letters])
                                  (skipped_missing_answer st) (printed st)
                    | None =>
                        mk_pstate at_answer
                                  (out st ++ [mk_parsed n text opts []])
                                  (skipped_missing_answer st ++ [n])
                                  (printed st)
                    end
                | [] =>
                    mk_pstate []
                              (out st ++ [mk_parsed n text opts []])
                              (skipped_missing_answer st ++ [n])
                              (printed st)
                end
              else
                mk_pstate at_marker (out st) (skipped_missing_answer st)
                          (printed st ++ [WarnNoOptions cat_name n])
          | [] =>
              mk_pstate [] (out st) (skipped_missing_answer st)
                        (printed st ++ [WarnNoOptions cat_name n])
          end
      end
  end.

(** The loop: every iteration consumes a line, so [length lines]
    iterations exhaust the lines ([scan_exhausts] below). *)
Fixpoint scan (fuel : nat) (cat_name : str) (st : pstate) : pstate :=
  match fuel with
  | O => st
  | S fuel' =>
      match remaining st with
      | [] => st
      | _ :: _ => scan fuel' cat_name (step cat_name st)
      end
  end.

Definition parse_state (lines : list str) (cat_name : str) : pstate :=
  scan (length lines) cat_name (mk_pstate lines [] [] []).

(** [parse_category(lines, cat_name)]: [(out, skipped_missing_answer)],
    and what it printed. *)
Definition parse_category (lines : list str) (cat_name : str)
  : list parsed * list Z * list log_line :=
  let st := parse_state lines cat_name in
  (out st, skipped_missing_answer st, printed st).

(** ** [main] *)

(** The exception of [ord]. *)
Inductive result (A : Type) :=
| Ok (a : A)
| TypeError.
Arguments Ok {A} a.
Arguments TypeError {A}.

#[global] Instance result_ret : MRet result := fun A a => Ok a.
#[global] Instance result_bind : MBind result :=
  fun A B f r => match r with Ok a => f a | TypeError => TypeError end.

(** [ord(s)] *)
Definition ord (s : str) : result Z :=
  match s with
  | [c] => Ok c
  | _ => TypeError
  end.

(** [[ord(letter) - ord("A") for letter in letters]] *)
Fixpoint letter_indices (letters : list str) : result (list Z) :=
  match letters with
  | [] => Ok []
  | letter :: letters' =>
      c ← ord letter;
      a ← ord (py "A");
      indices ← letter_indices letters';
      Ok (c - a :: indices)
  end.

(** [[i for i, line in enumerate(raw_lines)
      if line.startswith("CATEGORY:")]] followed by [len(raw_lines)]. *)
Definition cat_indices (raw_lines : list str) : list nat :=
  List.map fst
    (List.filter (fun p => startswith (snd p) (py "CATEGORY:"))
                 (combine (seq 0 (length raw_lines)) raw_lines))
  ++ [length raw_lines].

(** [raw_lines[lo:hi]] *)
Definition slice (lo hi : nat) (raw_lines : list str) : list str :=
  firstn (hi - lo) (skipn lo raw_lines).

(** The category blocks: for each pair of [zip(cat_indices[:-1],
    cat_indices[1:])], the name on the header line and the body. *)
Definition segments (raw_lines : list str) : list (str * list str) :=
  let indices := cat_indices raw_lines in
  List.map
    (fun p : nat * nat =>
       let header := nth (fst p) raw_lines [] in
       let name := strip (nth 1 (split_once 58 header) []) in
       (name, slice (S (fst p)) (snd p) raw_lines))
    (combine (removelast indices) (tl indices)).

(** The state of the first loop of [main]. *)
Record tables := mk_tables {
  categories : gmap str (list parsed);
  skipped_by_cat : gmap str (list Z);
  parse_printed : list log_line
}.

Definition add_segment (t : tables) (seg : str * list str) : tables :=
  let '(questions, skipped, lines_printed) :=
    parse_category (snd seg) (fst seg) in
  mk_tables (<[fst seg := questions]> (categories t))
            (<[fst seg := skipped]> (skipped_by_cat t))
            (parse_printed t ++ lines_printed).

(** The tables after the first loop of [main] over the given blocks. *)
Definition tables_of (segs : list (str * list str)) : tables :=
  fold_left add_segment segs (mk_tables ∅ ∅ []).

Definition build_tables (raw_lines : list str) : tables :=
  tables_of (segments raw_lines).

(** The static table from category names to the keys of the UI. *)
Definition mapping : list (str * str) :=
  [(py "CSA EXAM QUESTIONS", py "csa");
   (py "SKILLCERT QUESTIONS", py "skillcert");
   (py "YOUTUBE DUMPS", py "youtube");
   (py "OTHER SOURCES 1 QUESTIONS", py "other")].

(** The body of [for q in qlist], on [(js_questions,
    missing_answer_count)]. *)
Definition convert (acc : list js_record * nat) (q : parsed)
  : result (list js_record * nat) :=
  let opts := List.map snd (options q) in
  match correct_letters q with
  | [] => Ok (fst acc, S (snd acc))
  | letters =>
      indices ← letter_indices letters;
      let c := match indices with
               | [index] => Single index
               | _ => Multi indices
               end in
      Ok (fst acc ++ [mk_js (num q) (question q) opts c], snd acc)
  end.

Fixpoint convert_all (acc : list js_record * nat) (qlist : list parsed)
  : result (list js_record * nat) :=
  match qlist with
  | [] => Ok acc
  | q :: qlist' => acc' ← convert acc q; convert_all acc' qlist'
  end.

(** [js_obj] as the list of its items, and what was printed. *)
Definition js_obj := list (str * list js_record).

(** The body of [for cat_name, key in mapping.items()]. *)
Definition add_category (t : tables) (acc : js_obj * list log_line)
    (entry : str * str) : result (js_obj * list log_line) :=
  let cat_name := fst entry in
  let key := snd entry in
  let qlist := default [] (categories t !! cat_name) in
  '(js_questions, missing_answer_count) ← convert_all ([], O) qlist;
  let report :=
    CategoryReport cat_name key (length js_questions) missing_answer_count in
  let listing :=
    match skipped_by_cat t !! cat_name with
    | Some (n :: nums) => [SkippedListing cat_name (n :: nums)]
    | _ => []
    end in
  Ok (fst acc ++ [(key, js_questions)], snd acc ++ report :: listing).

Fixpoint add_categories (t : tables) (acc : js_obj * list log_line)
    (entries : list (str * str)) : result (js_obj * list log_line) :=
  match entries with
  | [] => Ok acc
  | entry :: entries' =>
      acc' ← add_category t acc entry; add_categories t acc' entries'
  end.

(** [js_obj.get(key, [])] *)
Definition js_get (obj : js_obj) (key : str) : list js_record :=
  match List.find (fun p => str_eqb (fst p) key) obj with
  | Some p => snd p
  | None => []
  end.

(** The rest of [main] after the first loop: the structure that is
    written to the output file, and the console lines. *)
Definition finish (t : tables) : result (js_obj * list log_line) :=
  '(obj, lines_printed) ← add_categories t ([], parse_printed t) mapping;
  Ok (obj,
      lines_printed
      ++ WroteTo OUTPUT_FILE
         :: List.map
              (fun e => WroteCount (snd e) (length (js_get obj (snd e))))
              mapping).

(** [main] from the lines of the input file. *)
Definition main_lines (raw_lines : list str)
  : result (js_obj * list log_line) :=
  finish (build_tables raw_lines).

(** [main] on the decoded text of the input file. *)
Definition main (text : str) : result (js_obj * list log_line) :=
  main_lines (splitlines text).

(** * Vocabulary of the properties *)

(** The structure [js_obj] alone. *)
Definition result_map {A B} (f : A -> B) (r : result A) : result B :=
  match r with Ok a => Ok (f a) | TypeError => TypeError end.

Definition js_output (text : str) : result js_obj :=
  result_map fst (main text).

(** The indices of a ["correct"] value. *)
Definition correct_indices (c : correct_field) : list Z :=
  match c with Single index => [index] | Multi indices => indices end.

(** A loop state seen from a later one: what was built before is a
    prefix of what is built after. *)
Definition frame (o : list parsed) (s : list Z) (p : list log_line)
    (st : pstate) : pstate :=
  mk_pstate (remaining st) (o ++ out st) (s ++ skipped_missing_answer st)
            (p ++ printed st).

(** The scan of the lines from a cursor on, started afresh. *)
Definition scan_from (fuel : nat) (cat_name : str) (lines : list str)
  : pstate :=
  scan fuel cat_name (mk_pstate lines [] [] []).

(** Non-blank lines, and lists of lines by their first line. *)
Definition nonblank (line : str) : bool := negb (is_blank line).

Definition starts_blank (lines : list str) : bool :=
  match lines with [] => true | line :: _ => is_blank line end.

Definition starts_nonblank (lines : list str) : bool :=
  match lines with [] => true | line :: _ => nonblank line end.

(** ** Question blocks

    A block as the scanner reads it: the header line, blank lines, the
    lines of the prompt, at least one blank line, the Options marker, the
    run of lines up to the next blank line (the option lines and whatever
    else stands there), and the blank lines that follow. *)
Record block := mk_block {
  b_header : str;
  b_blank1 : list str;
  b_prompt1 : str;
  b_prompt : list str;
  b_sep : str;
  b_blank2 : list str;
  b_marker : str;
  b_option_run : list str;
  b_blank3 : list str
}.

Definition block_lines (b : block) : list str :=
  b_header b :: b_blank1 b ++ (b_prompt1 b :: b_prompt b)
  ++ (b_sep b :: b_blank2 b) ++ b_marker b :: b_option_run b ++ b_blank3 b.

(** The block has this shape, with the ordinal [n] on its header. *)
Definition shaped (b : block) (n : Z) : bool :=
  bool_decide (question_header (b_header b) = Some n)
  && forallb is_blank (b_blank1 b)
  && forallb nonblank (b_prompt1 b :: b_prompt b)
  && forallb is_blank (b_sep b :: b_blank2 b)
  && is_options_marker (b_marker b)
  && forallb nonblank (b_option_run b)
  && forallb is_blank (b_blank3 b).

(** What follows the block: nothing, or a non-blank line that a blank
    line separates from the option run. *)
Definition follows (b : block) (tail : list str) : bool :=
  match tail with
  | [] => true
  | line :: _ =>
      nonblank line && match b_blank3 b with [] => false | _ :: _ => true end
  end.

(** The question text and the options the scanner takes from the block. *)
Definition block_question (b : block) : str :=
  strip (join (py " ") (List.map strip (b_prompt1 b :: b_prompt b))).

Definition block_options (b : block) : list (str * str) :=
  omap option_line (b_option_run b).

Definition block_record (b : block) (n : Z) (letters : list str) : parsed :=
  mk_parsed n (block_question b) (block_options b) letters.

(** The answer letters on the line at the cursor, when there is such a
    line and it matches. *)
Definition answer_at (lines : list str) : option (list str) :=
  match lines with
  | answer :: _ => answer_line answer
  | [] => None
  end.

(** The cursor after the answer line: it passes a line that matches and
    stays on one that does not. *)
Definition after_answer_at (lines : list str) : list str :=
  match lines with
  | answer :: lines' =>
      match answer_line answer with Some _ => lines' | None => lines end
  | [] => []
  end.

(** One more question counted as skipped for its missing answer. *)
Definition count_missing (r : list js_record * nat) : list js_record * nat :=
  (r.1, S r.2).


(** ** Inputs of the examples *)

(** Lines, and the text that a line feed joins them into. *)
Definition lines_of (l : list string) : list str := List.map py l.

Definition text_of (l : list string) : str :=
  join [10] (List.map py l).

(** The capital letter at position [k] of the alphabet, from 0, as a
    one-character string. *)
Definition letter (k : Z) : str := [65 + k].

(** A block with three option lines. *)
Definition block_2plus2 : block :=
  mk_block (py "Question 1:") [] (py "What is 2+2?") [] [] []
           (py "Options:") (lines_of ["A. 3"; "B. 4"; "C. 5"]) [[]].

(** A block whose option run holds no option line. *)
Definition block_no_option_lines : block :=
  mk_block (py "Question 7:") [[]] (py "Which one?") [] [] []
           (py "options") (lines_of ["(none were given)"]) [[]].

(** The category of the specification's scenario, with a given last
    line. *)
Definition scenario (answer : string) : str :=
  text_of ["CATEGORY: CSA EXAM QUESTIONS"; "Question 1:"; "What is 2+2?";
           ""; "Options:"; "A. 3"; "B. 4"; "C. 5"; ""; answer].

Definition record_2plus2 (c : correct_field) : js_record :=
  mk_js 1 (py "What is 2+2?") [py "3"; py "4"; py "5"] c.

(** ** Category blocks and exceptions *)

(** The questions parsed from a category block. *)
Definition segment_questions (seg : str * list str) : list parsed :=
  (parse_category seg.2 seg.1).1.1.

(** The structure that [main] writes, from the category blocks. *)
Definition output_of (segs : list (str * list str)) : result js_obj :=
  result_map fst (finish (tables_of segs)).

(** The names of the mapping. *)
Definition is_mapped (name : str) : bool :=
  existsb (fun e => str_eqb e.1 name) mapping.

(** Two inputs with the same two categories, in opposite orders. *)
Definition youtube_then_csa : str :=
  text_of ["CATEGORY: YOUTUBE DUMPS"; "Question 8:"; "Which?"; "";
           "Options:"; "A. this"; "B. that"; ""; "Correct Answer: A";
           "CATEGORY: CSA EXAM QUESTIONS"; "Question 1:"; "What is 2+2?";
           ""; "Options:"; "A. 3"; "B. 4"; "C. 5"; ""; "Correct Answer: B"].

Definition csa_then_youtube : str :=
  text_of ["CATEGORY: CSA EXAM QUESTIONS"; "Question 1:"; "What is 2+2?";
           ""; "Options:"; "A. 3"; "B. 4"; "C. 5"; ""; "Correct Answer: B";
           "CATEGORY: YOUTUBE DUMPS"; "Question 8:"; "Which?"; "";
           "Options:"; "A. this"; "B. that"; ""; "Correct Answer: A"].

(** [ord] raises on the strings that are not one character long, and
    nothing else in the filter step raises. *)
Definition bad_token (token : str) : Prop := length token <> 1%nat.

Definition bad_question (q : parsed) : Prop :=
  Exists bad_token (correct_letters q).

(** ** Well-formed records *)

(** A string that [strip] leaves as it is. *)
Definition trimmed (s : str) : Prop := strip s = s.

(** An option of a parsed question: one capital letter, and a text without
    white space around it. *)
Definition wf_option (o : str * str) : Prop :=
  (exists c, o.1 = [c] /\ 65 <= c <= 90) /\ trimmed o.2.

(** An answer token: not empty, without white space around it, without a
    comma. *)
Definition wf_token (token : str) : Prop :=
  token <> [] /\ trimmed token /\ 44 ∉ token.

Definition wf_parsed (q : parsed) : Prop :=
  0 <= num q /\ trimmed (question q)
  /\ Forall wf_option (options q) /\ Forall wf_token (correct_letters q).

(** ** The filter step *)

(** Questions with and without recorded answer letters. *)
Definition has_letters (q : parsed) : Prop := correct_letters q <> [].

Definition no_letters (q : parsed) : Prop := correct_letters q = [].

(** An output record made from a parsed question. *)
Definition made_from (r : js_record) (q : parsed) : Prop :=
  js_id r = num q /\ js_question r = question q
  /\ js_options r = List.map snd (options q)
  /\ letter_indices (correct_letters q) = Ok (correct_indices (correct r)).

(** A ["correct"] value as [main] builds it: a bare index, or a list of at
    least two. *)
Definition wf_correct (c : correct_field) : Prop :=
  match c with
  | Single _ => True
  | Multi indices => (2 <= length indices)%nat
  end.

(** ** Whole runs, category by category *)

(** The last category block of the input that bears a name, the questions
    parsed from it and the ordinals skipped in it (none when no block
    bears the name). *)
Definition last_block (raw_lines : list str) (name : str)
  : option (str * list str) :=
  last (filter (fun seg => seg.1 = name) (segments raw_lines)).

Definition questions_for (raw_lines : list str) (name : str) : list parsed :=
  default [] (segment_questions <$> last_block raw_lines name).

Definition skipped_for (raw_lines : list str) (name : str) : list Z :=
  default [] ((fun seg => (parse_category seg.2 seg.1).1.2)
                <$> last_block raw_lines name).

(** The console lines of one category of the mapping: the report, and the
    listing of the skipped ordinals when there are some. *)
Definition category_lines (raw_lines : list str) (entry : str * str)
    (included missing : nat) : list log_line :=
  CategoryReport entry.1 entry.2 included missing
  :: match skipped_for raw_lines entry.1 with
     | [] => []
     | n :: nums => [SkippedListing entry.1 (n :: nums)]
     end.

(** What the parser prints for the category blocks, in their order. *)
Definition parser_lines (raw_lines : list str) : list log_line :=
  concat (List.map (fun seg => (parse_category seg.2 seg.1).2)
                   (segments raw_lines)).

(** An output record without defect of form. *)
Definition wf_record (r : js_record) : Prop :=
  0 <= js_id r /\ trimmed (js_question r)
  /\ Forall trimmed (js_options r) /\ wf_correct (correct r).

(** ** The category blocks in one pass *)

(** [line.startswith("CATEGORY:")] *)
Definition is_header (line : str) : bool := startswith line (py "CATEGORY:").

(** The lines up to the next header line. *)
Fixpoint body_of (lines : list str) : list str :=
  match lines with
  | line :: lines' => if is_header line then [] else line :: body_of lines'
  | [] => []
  end.

(** The blocks read in one forward pass: every header line opens a block
    named by the stripped text after its marker, whose body runs up to
    the next header line; the lines before the first header line belong
    to no block. *)
Fixpoint split_blocks (lines : list str) : list (str * list str) :=
  match lines with
  | line :: lines' =>
      if is_header line
      then (strip (skipn 9 line), body_of lines') :: split_blocks lines'
      else split_blocks lines'
  | [] => []
  end.

(** The header indices of [lines], counted from [k]. *)
Definition headers_from (k : nat) (lines : list str) : list nat :=
  List.map fst
    (List.filter (fun p => startswith (snd p) (py "CATEGORY:"))
                 (combine (seq k (length lines)) lines)).

(** The output of a run on an input without category block. *)
Definition empty_output : js_obj :=
  [(py "csa", []); (py "skillcert", []); (py "youtube", []);
   (py "other", [])].

Definition nonheader (line : str) : bool := negb (is_header line).

(** The lines from the first header line on. *)
Fixpoint drop_preamble (lines : list str) : list str :=
  match lines with
  | line :: lines' => if is_header line then lines else drop_preamble lines'
  | [] => []
  end.

(** ** Lines that the patterns accept *)

(** The first character, if any, is outside a class. *)
Definition stops (cls : char -> bool) (s : str) : bool :=
  match s with [] => true | c :: _ => negb (cls c) end.

(** A word that is a given lower-case word under IGNORECASE. *)
Fixpoint same_ci (word w : str) : bool :=
  match word, w with
  | [], [] => true
  | p :: word', c :: w' => chr_ci p c && same_ci word' w'
  | _, _ => false
  end.

(** Neither a colon nor a line feed. *)
Definition before_colon (c : char) : bool := negb (c =? 58) && negb (c =? 10).

(** The part of [CORRECT_RE] after the word "Answer", from its end. *)
Definition after_colon : regex :=
  [Item is_space Star false; Item any_char Plus true; EndOfString].

Definition at_colon : regex :=
  Item (chr_is 41) Optional false :: Item (chr_is 58) One false
  :: after_colon.

Definition to_colon : regex := Item any_char LazyStar false :: at_colon.

Definition after_space : regex :=
  Item (chr_is 40) Optional false :: to_colon.

Definition after_plural : regex := Item is_space Star false :: after_space.

Definition after_answer : regex :=
  Item (chr_ci 115) Optional false :: after_plural.

(** ** The digits that [int] accepts *)

(** The digits that [QUESTION_RE] captures on a line. *)
Definition header_digits (line : str) : option str :=
  match re_match QUESTION_RE line with
  | Some (digits :: _) => Some digits
  | _ => None
  end.

(** No line of the input that matches [QUESTION_RE] has more digits than
    [int] accepts: [int] raises on no line that the scanner can take for a
    question header. *)
Definition within_int_limit (lines : list str) : bool :=
  forallb (fun line =>
             match header_digits line with
             | Some digits => (length digits <=? int_max_str_digits)%nat
             | None => true
             end)
          lines.

(** ** Inputs with a category outside the mapping *)

(** The block of the scenario, without answer line, under a category name
    that is not in the mapping table. *)
Definition unmapped_unanswered : str :=
  text_of ["CATEGORY: FOO"; "Question 1:"; "What is 2+2?"; ""; "Options:";
           "A. 3"; "B. 4"; "C. 5"; ""; "Answer: B"].

(** A block without option line and with an answer line, under a category
    name that is not in the mapping table, and under one that is. *)
Definition unmapped_no_option_lines : str :=
  text_of ["CATEGORY: FOO"; "Question 7:"; ""; "Which one?"; ""; "options";
           "(none were given)"; ""; "Correct Answer: A"].

Definition mapped_no_option_lines : str :=
  text_of ["CATEGORY: YOUTUBE DUMPS"; "Question 7:"; ""; "Which one?"; "";
           "options"; "(none were given)"; ""; "Correct Answer: A"].

(** * Properties *)

(** ** The cursor only moves forward *)

Lemma skip_blank_suffix lines : skip_blank lines `suffix_of` lines.
Proof.
  induction lines as [|line lines IH]; simpl; [done|].
  destruct (is_blank line); [by apply suffix_cons_r | done].
Qed.

Lemma read_prompt_suffix lines : (read_prompt lines).2 `suffix_of` lines.
Proof.
  induction lines as [|line lines IH]; simpl; [done|].
  destruct (is_blank line); [done|].
  destruct (read_prompt lines) as [q_lines rest]; simpl in *.
  by apply suffix_cons_r.
Qed.

Lemma read_options_suffix lines : (read_options lines).2 `suffix_of` lines.
Proof.
  induction lines as [|line lines IH]; simpl; [done|].
  destruct (is_blank line); [done|].
  destruct (read_options lines) as [opts rest]; simpl in *.
  by apply suffix_cons_r.
Qed.

Lemma suffix_tail {A} (l : list A) x k : x :: l `suffix_of` k -> l `suffix_of` k.
Proof. intros H. etrans; [|exact H]. by apply suffix_cons_r. Qed.

(** One iteration leaves a strict suffix of the lines it started from. *)
Lemma step_remaining cat_name st line lines :
  remaining st = line :: lines ->
  remaining (step cat_name st) `suffix_of` lines.
Proof.
  intros Hrem. unfold step. rewrite Hrem.
  destruct (question_header line) as [n|]; simpl; [|done].
  pose proof (skip_blank_suffix lines) as H1.
  pose proof (read_prompt_suffix (skip_blank lines)) as H2.
  destruct (read_prompt (skip_blank lines)) as [q_lines after_prompt].
  simpl in H2.
  pose proof (skip_blank_suffix after_prompt) as H3.
  assert (Hm : skip_blank after_prompt `suffix_of` lines)
    by (etrans; [exact H3|]; etrans; [exact H2|exact H1]).
  destruct (skip_blank after_prompt) as [|marker after_marker] eqn:Em;
    simpl; [apply suffix_nil|].
  destruct (is_options_marker marker); simpl; [|done].
  pose proof (read_options_suffix after_marker) as H4.
  destruct (read_options after_marker) as [opts after_options].
  simpl in H4.
  pose proof (skip_blank_suffix after_options) as H5.
  assert (Ha : skip_blank after_options `suffix_of` lines).
  { etrans; [exact H5|]. etrans; [exact H4|]. by eapply suffix_tail. }
  destruct (skip_blank after_options) as [|answer after_answer] eqn:Ea;
    simpl; [apply suffix_nil|].
  destruct (answer_line answer); simpl; [by eapply suffix_tail | done].
Qed.

Lemma step_shorter cat_name st :
  remaining st <> [] ->
  (length (remaining (step cat_name st)) < length (remaining st))%nat.
Proof.
  destruct (remaining st) as [|line lines] eqn:Hrem; [done|]. intros _.
  pose proof (step_remaining cat_name st line lines Hrem) as H.
  apply suffix_length in H. simpl. lia.
Qed.

(** The loop terminates: with as many iterations as there are lines left,
    the scan stops on exhausted input. *)
Lemma scan_exhausts fuel cat_name st :
  (length (remaining st) <= fuel)%nat ->
  remaining (scan fuel cat_name st) = [].
Proof.
  revert st. induction fuel as [|fuel IH]; intros st Hlen; simpl.
  - destruct (remaining st); [done | simpl in Hlen; lia].
  - destruct (remaining st) as [|line lines] eqn:Hrem; [done|].
    apply IH.
    assert (remaining st <> []) as Hne by (rewrite Hrem; done).
    pose proof (step_shorter cat_name st Hne) as H.
    rewrite Hrem in H. simpl in *. lia.
Qed.

Lemma scan_done fuel cat_name st :
  remaining st = [] -> scan fuel cat_name st = st.
Proof. intros H. destruct fuel; simpl; [done|]. by rewrite H. Qed.

(** More iterations than lines change nothing. *)
Lemma scan_enough fuel fuel' cat_name st :
  (length (remaining st) <= fuel)%nat ->
  (length (remaining st) <= fuel')%nat ->
  scan fuel cat_name st = scan fuel' cat_name st.
Proof.
  revert fuel' st. induction fuel as [|fuel IH]; intros fuel' st H1 H2.
  - destruct (remaining st) eqn:Hrem; [|simpl in H1; lia].
    by rewrite !scan_done.
  - destruct fuel' as [|fuel'].
    + destruct (remaining st) eqn:Hrem; [|simpl in H2; lia].
      by rewrite !scan_done.
    + simpl. destruct (remaining st) as [|line lines] eqn:Hrem; [done|].
      assert (remaining st <> []) as Hne by (rewrite Hrem; done).
      pose proof (step_shorter cat_name st Hne) as H.
      rewrite Hrem in H. simpl in *. apply IH; lia.
Qed.

(** ** What was built before an iteration is kept *)

Lemma frame_frame o s p o' s' p' st :
  frame o s p (frame o' s' p' st) = frame (o ++ o') (s ++ s') (p ++ p') st.
Proof. unfold frame. simpl. by rewrite !app_assoc. Qed.

Lemma frame_nil st : frame [] [] [] st = st.
Proof. by destruct st. Qed.

Lemma step_frame cat_name lines o s p :
  step cat_name (mk_pstate lines o s p)
  = frame o s p (step cat_name (mk_pstate lines [] [] [])).
Proof.
  unfold step, frame. simpl.
  destruct lines as [|line lines]; simpl; [by rewrite !app_nil_r|].
  destruct (question_header line) as [n|]; simpl; [|by rewrite !app_nil_r].
  destruct (read_prompt (skip_blank lines)) as [q_lines after_prompt].
  destruct (skip_blank after_prompt) as [|marker after_marker]; simpl;
    [by rewrite !app_nil_r|].
  destruct (is_options_marker marker); simpl; [|by rewrite !app_nil_r].
  destruct (read_options after_marker) as [opts after_options].
  destruct (skip_blank after_options) as [|answer after_answer]; simpl;
    [by rewrite !app_nil_r|].
  destruct (answer_line answer); simpl; by rewrite !app_nil_r.
Qed.

Lemma scan_frame fuel cat_name lines o s p :
  scan fuel cat_name (mk_pstate lines o s p)
  = frame o s p (scan_from fuel cat_name lines).
Proof.
  unfold scan_from.
  revert lines o s p. induction fuel as [|fuel IH]; intros lines o s p.
  - simpl. unfold frame. simpl. by rewrite !app_nil_r.
  - simpl. destruct lines as [|line lines].
    + unfold frame. simpl. by rewrite !app_nil_r.
    + rewrite step_frame.
      destruct (step cat_name (mk_pstate (line :: lines) [] [] []))
        as [r' o' s' p'] eqn:Hstep.
      unfold frame at 1. simpl.
      rewrite (IH r' (o ++ o') (s ++ s') (p ++ p')).
      rewrite (IH r' o' s' p').
      by rewrite frame_frame.
Qed.

(** ** Runs of blank and of non-blank lines *)

Lemma skip_blank_app blanks lines :
  forallb is_blank blanks = true ->
  skip_blank (blanks ++ lines) = skip_blank lines.
Proof.
  induction blanks as [|b blanks IH]; simpl; [done|].
  intros [Hb Hbs]%andb_prop. rewrite Hb. auto.
Qed.

Lemma skip_blank_nonblank lines :
  starts_nonblank lines = true -> skip_blank lines = lines.
Proof.
  destruct lines as [|line lines]; simpl; [done|]. unfold nonblank.
  by destruct (is_blank line).
Qed.

Lemma read_prompt_app run lines :
  forallb nonblank run = true -> starts_blank lines = true ->
  read_prompt (run ++ lines) = (List.map strip run, lines).
Proof.
  intros Hrun Hlines. induction run as [|line run IH]; simpl.
  - destruct lines as [|l lines]; simpl in *; [done | by rewrite Hlines].
  - simpl in Hrun. apply andb_prop in Hrun as [Hl Hrun].
    unfold nonblank in Hl. destruct (is_blank line); [done|].
    by rewrite (IH Hrun).
Qed.

Lemma read_options_app run lines :
  forallb nonblank run = true -> starts_blank lines = true ->
  read_options (run ++ lines) = (omap option_line run, lines).
Proof.
  intros Hrun Hlines. induction run as [|line run IH]; simpl.
  - destruct lines as [|l lines]; simpl in *; [done | by rewrite Hlines].
  - simpl in Hrun. apply andb_prop in Hrun as [Hl Hrun].
    unfold nonblank in Hl. destruct (is_blank line); [done|].
    rewrite (IH Hrun). by destruct (option_line line).
Qed.

Lemma marker_nonblank line : is_options_marker line = true -> nonblank line = true.
Proof.
  unfold is_options_marker, nonblank, is_blank.
  by destruct (strip line).
Qed.

Lemma follows_starts_blank b tail :
  forallb is_blank (b_blank3 b) = true -> follows b tail = true ->
  starts_blank (b_blank3 b ++ tail) = true.
Proof.
  unfold follows. destruct (b_blank3 b) as [|l ls]; simpl.
  - destruct tail; [done|]. by rewrite andb_false_r.
  - by intros [H _]%andb_prop _.
Qed.

Lemma follows_starts_nonblank b tail :
  follows b tail = true -> starts_nonblank tail = true.
Proof.
  unfold follows. destruct tail as [|l tail]; simpl; [done|].
  by intros [H _]%andb_prop.
Qed.

(** The iteration that starts on the header of a block. *)
Lemma step_block cat_name b n tail o s p :
  shaped b n = true -> follows b tail = true ->
  step cat_name (mk_pstate (block_lines b ++ tail) o s p)
  = match tail with
    | answer :: after_answer =>
        match answer_line answer with
        | Some letters =>
            mk_pstate after_answer (o ++ [block_record b n letters]) s p
        | None =>
            mk_pstate tail (o ++ [block_record b n []]) (s ++ [n]) p
        end
    | [] => mk_pstate [] (o ++ [block_record b n []]) (s ++ [n]) p
    end.
Proof.
  unfold shaped. rewrite !andb_true_iff, bool_decide_eq_true.
  intros [[[[[[Hh Hb1] Hp] Hb2] Hm] Hrun] Hb3] Hf.
  set (prompt_run := b_prompt1 b :: b_prompt b) in *.
  set (sep_run := b_sep b :: b_blank2 b) in *.
  assert (Hlines : block_lines b ++ tail
                   = b_header b :: b_blank1 b ++ prompt_run ++ sep_run
                     ++ b_marker b :: b_option_run b ++ b_blank3 b ++ tail).
  { unfold block_lines, prompt_run, sep_run. cbn [app]. f_equal.
    by repeat (rewrite <- ?app_assoc; cbn [app]). }
  assert (Hp1 : starts_nonblank (prompt_run ++ sep_run ++ b_marker b
                  :: b_option_run b ++ b_blank3 b ++ tail) = true).
  { subst prompt_run. simpl in *. by apply andb_prop in Hp as [Hp _]. }
  assert (Hs1 : starts_blank (sep_run ++ b_marker b
                  :: b_option_run b ++ b_blank3 b ++ tail) = true).
  { subst sep_run. simpl in *. by apply andb_prop in Hb2 as [Hb2 _]. }
  rewrite Hlines. unfold step.
  cbn [remaining out skipped_missing_answer printed]. rewrite Hh.
  rewrite skip_blank_app by done.
  rewrite skip_blank_nonblank by done.
  rewrite read_prompt_app by done.
  rewrite skip_blank_app by done.
  rewrite (skip_blank_nonblank (b_marker b :: _))
    by (by apply marker_nonblank).
  rewrite Hm.
  rewrite read_options_app by (done || by apply follows_starts_blank).
  rewrite skip_blank_app by done.
  rewrite skip_blank_nonblank by (by eapply follows_starts_nonblank).
  destruct tail as [|answer after_answer]; [done|].
  by destruct (answer_line answer).
Qed.

Lemma scan_S fuel cat_name st :
  remaining st <> [] ->
  scan (S fuel) cat_name st = scan fuel cat_name (step cat_name st).
Proof. simpl. by destruct (remaining st). Qed.

(** The scan from the header of a block: the block contributes one record,
    its ordinal joins the skipped ones when no answer line follows, and the
    scan goes on after it. *)
Lemma scan_block fuel cat_name b n tail st :
  shaped b n = true -> follows b tail = true ->
  remaining st = block_lines b ++ tail ->
  scan (S fuel) cat_name st
  = frame (out st ++ [block_record b n (default [] (answer_at tail))])
          (skipped_missing_answer st
           ++ match answer_at tail with Some _ => [] | None => [n] end)
          (printed st)
          (scan_from fuel cat_name (after_answer_at tail)).
Proof.
  intros Hb Hf Hrem. destruct st as [r o s p].
  cbn [remaining] in Hrem. subst r.
  cbn [out skipped_missing_answer printed].
  rewrite scan_S by done.
  rewrite (step_block cat_name b n tail o s p Hb Hf).
  destruct tail as [|answer after_answer]; simpl.
  - rewrite scan_done by done. unfold scan_from.
    rewrite scan_done by done. unfold frame. simpl.
    by rewrite !app_nil_r.
  - destruct (answer_line answer); simpl; rewrite scan_frame;
      by rewrite ?app_nil_r.
Qed.

(** The same for the parse of a category body that starts with the
    block. *)
Lemma parse_state_block cat_name b n tail :
  shaped b n = true -> follows b tail = true ->
  parse_state (block_lines b ++ tail) cat_name
  = frame [block_record b n (default [] (answer_at tail))]
          match answer_at tail with Some _ => [] | None => [n] end
          []
          (parse_state (after_answer_at tail) cat_name).
Proof.
  intros Hb Hf. unfold parse_state.
  assert (Hlen : (length (after_answer_at tail) <= length tail)%nat).
  { destruct tail as [|answer tail]; simpl; [done|].
    destruct (answer_line answer); simpl; lia. }
  assert (Hfuel : length (block_lines b ++ tail)
                  = S (length (b_blank1 b ++ (b_prompt1 b :: b_prompt b)
                               ++ (b_sep b :: b_blank2 b)
                               ++ b_marker b :: b_option_run b ++ b_blank3 b)
                       + length tail)).
  { unfold block_lines. cbn [app length]. by rewrite length_app. }
  rewrite Hfuel.
  rewrite (scan_block _ cat_name b n tail (mk_pstate _ [] [] []) Hb Hf eq_refl).
  cbn [out skipped_missing_answer printed app]. f_equal.
  unfold scan_from. apply scan_enough; simpl; lia.
Qed.

(** ** The filter step of [main] *)

Lemma convert_count_missing records m q :
  convert (records, S m) q = result_map count_missing (convert (records, m) q).
Proof.
  unfold convert. cbn [fst snd].
  destruct (correct_letters q) as [|l ls]; [done|].
  by destruct (letter_indices (l :: ls)).
Qed.

Lemma convert_all_count_missing records m qlist :
  convert_all (records, S m) qlist
  = result_map count_missing (convert_all (records, m) qlist).
Proof.
  revert records m. induction qlist as [|q qlist IH]; intros records m; [done|].
  simpl. rewrite convert_count_missing.
  destruct (convert (records, m) q) as [[records' m']|]; simpl; [|done].
  apply IH.
Qed.

Lemma convert_all_app acc qs1 qs2 :
  convert_all acc (qs1 ++ qs2)
  = acc' ← convert_all acc qs1; convert_all acc' qs2.
Proof.
  revert acc. induction qs1 as [|q qs1 IH]; intros acc; [done|].
  simpl. destruct (convert acc q) as [acc'|]; simpl; [apply IH | done].
Qed.

(** A question without answer letters is skipped and counted. *)
Lemma convert_all_skip acc qs1 q qs2 :
  correct_letters q = [] ->
  convert_all acc (qs1 ++ q :: qs2)
  = result_map count_missing (convert_all acc (qs1 ++ qs2)).
Proof.
  intros Hq. rewrite !convert_all_app.
  destruct (convert_all acc qs1) as [[records m]|]; simpl; [|done].
  unfold convert. rewrite Hq. simpl. apply convert_all_count_missing.
Qed.





(** ** The claims about question blocks *)

(** C6.  A block whose header matched and that has no Options marker
    after its prompt (the input ends, or the next non-blank line is not
    one): the scan that arrives at its header adds nothing to [out] and
    nothing to [skipped_missing_answer], prints the warning with the
    ordinal, and goes on from the very line where it looked for the
    marker, so that the rest of the result is the scan of the lines from
    there on. *)
Theorem C6_block_without_marker :
  forall fuel cat_name header n blank1 prompt blank2 tail st,
    question_header header = Some n ->
    forallb is_blank blank1 = true ->
    forallb nonblank prompt = true ->
    forallb is_blank blank2 = true ->
    match tail with
    | [] => True
    | line :: _ =>
        nonblank line = true /\ is_options_marker line = false
        /\ prompt <> [] /\ blank2 <> []
    end ->
    remaining st = header :: blank1 ++ prompt ++ blank2 ++ tail ->
    step cat_name st
    = mk_pstate tail (out st) (skipped_missing_answer st)
                (printed st ++ [WarnNoOptions cat_name n])
    /\ scan (S fuel) cat_name st
       = frame (out st) (skipped_missing_answer st)
               (printed st ++ [WarnNoOptions cat_name n])
               (scan_from fuel cat_name tail).
Proof.
  intros fuel cat_name header n blank1 prompt blank2 tail st
         Hh Hb1 Hp Hb2 Htail Hrem.
  assert (Hstep : step cat_name st
                  = mk_pstate tail (out st) (skipped_missing_answer st)
                              (printed st ++ [WarnNoOptions cat_name n])).
  { unfold step. rewrite Hrem, Hh.
    rewrite skip_blank_app by done.
    destruct tail as [|line tail].
    - rewrite !app_nil_r.
      destruct prompt as [|p1 prompt].
      + simpl. rewrite <- (app_nil_r blank2), skip_blank_app by done.
        simpl. done.
      + rewrite (skip_blank_nonblank ((p1 :: prompt) ++ blank2))
          by (simpl in *; by apply andb_prop in Hp as [Hp _]).
        assert (Hsb : starts_blank blank2 = true).
        { destruct blank2; simpl in *; [done|].
          by apply andb_prop in Hb2 as [Hb2 _]. }
        rewrite read_prompt_app by done.
        rewrite <- (app_nil_r blank2), skip_blank_app by done.
        done.
    - destruct Htail as (Hl & Hm & Hpne & Hbne).
      destruct prompt as [|p1 prompt]; [done|].
      destruct blank2 as [|b2 blank2]; [done|].
      rewrite (skip_blank_nonblank ((p1 :: prompt) ++ _))
        by (simpl in *; by apply andb_prop in Hp as [Hp _]).
      rewrite read_prompt_app;
        [| done | simpl in *; by apply andb_prop in Hb2 as [Hb2 _]].
      rewrite skip_blank_app by done.
      rewrite (skip_blank_nonblank (line :: tail)) by done.
      by rewrite Hm. }
  split; [done|].
  rewrite scan_S by (rewrite Hrem; done).
  rewrite Hstep. by rewrite scan_frame.
Qed.

Lemma C6_block_without_marker_witness :
  step (py "CSA EXAM QUESTIONS")
       (mk_pstate
          (lines_of ["Question 4:"; "An orphan prompt"; "";
                     "Question 5:"; "Next prompt"])
          [] [] [])
  = mk_pstate (lines_of ["Question 5:"; "Next prompt"]) [] []
              ([] ++ [WarnNoOptions (py "CSA EXAM QUESTIONS") 4])
  /\ scan 5 (py "CSA EXAM QUESTIONS")
          (mk_pstate
             (lines_of ["Question 4:"; "An orphan prompt"; "";
                        "Question 5:"; "Next prompt"])
             [] [] [])
     = frame [] [] ([] ++ [WarnNoOptions (py "CSA EXAM QUESTIONS") 4])
             (scan_from 4 (py "CSA EXAM QUESTIONS")
                        (lines_of ["Question 5:"; "Next prompt"])).
Proof.
  apply (C6_block_without_marker 4 (py "CSA EXAM QUESTIONS")
           (py "Question 4:") 4 [] (lines_of ["An orphan prompt"])
           (lines_of [""]) (lines_of ["Question 5:"; "Next prompt"])
           (mk_pstate
              (lines_of ["Question 4:"; "An orphan prompt"; "";
                         "Question 5:"; "Next prompt"])
              [] [] []));
    try reflexivity.
  repeat split; discriminate.
Defined.





(** ** Whole runs *)


(** C2, counterexample.  On the scenario of the specification the output
    is not the structure with the one key "csa". *)
Lemma C2_not_only_csa :
  js_output (scenario "Correct Answer: B")
  <> Ok [(py "csa", [record_2plus2 (Single 1)])].
Proof. by vm_compute. Qed.

(** C2 (amended).  On the scenario of the specification the output holds
    the four keys of the mapping, in its order: "csa" with the one record
    of the question, and "skillcert", "youtube" and "other" with no
    record. *)
Theorem C2_scenario_output :
  js_output (scenario "Correct Answer: B")
  = Ok [(py "csa", [record_2plus2 (Single 1)]); (py "skillcert", []);
        (py "youtube", []); (py "other", [])].
Proof. by vm_compute. Qed.

(** Parsing always completes: the scan of a category exhausts its lines. *)
Lemma parse_category_exhausts lines cat_name :
  remaining (parse_state lines cat_name) = [].
Proof. unfold parse_state. by apply scan_exhausts. Qed.

(** C3.  An answer line that matches the pattern and whose text after the
    colon is not a list of single letters: the line is accepted by the
    parser, and the filter step of [main] raises [TypeError] on the token,
    so that the run aborts and nothing is written. *)
Theorem C3_answer_token_raises :
  answer_line (py "Correct Answer: A and C") = Some [py "A and C"]
  /\ main (scenario "Correct Answer: A and C") = TypeError.
Proof. split; by vm_compute. Qed.

(** ** The category table *)

Lemma tables_of_snoc segs seg :
  tables_of (segs ++ [seg]) = add_segment (tables_of segs) seg.
Proof. unfold tables_of. by rewrite fold_left_app. Qed.

Lemma categories_add_segment t seg :
  categories (add_segment t seg)
  = <[seg.1 := segment_questions seg]> (categories t).
Proof.
  unfold add_segment, segment_questions.
  by destruct (parse_category seg.2 seg.1) as [[questions skipped] lg].
Qed.

(** The entry of a name is what was parsed from the last block that
    bears it. *)
Lemma categories_lookup segs (name : str) :
  categories (tables_of segs) !! name
  = segment_questions <$> last (filter (fun seg => seg.1 = name) segs).
Proof.
  induction segs as [|seg segs IH] using rev_ind; [done|].
  rewrite tables_of_snoc, categories_add_segment, filter_app.
  destruct (decide (seg.1 = name)) as [Heq|Hne].
  - rewrite Heq, lookup_insert_eq.
    rewrite filter_cons_True by done.
    by rewrite filter_nil, last_snoc.
  - rewrite lookup_insert_ne by done.
    rewrite filter_cons_False by done.
    by rewrite filter_nil, app_nil_r.
Qed.

Lemma js_output_segments text :
  js_output text = output_of (segments (splitlines text)).
Proof. done. Qed.

(** The output reads the table at the names of the mapping only. *)
Lemma add_category_ext t1 t2 acc1 acc2 entry :
  categories t1 !! entry.1 = categories t2 !! entry.1 ->
  acc1.1 = acc2.1 ->
  result_map fst (add_category t1 acc1 entry)
  = result_map fst (add_category t2 acc2 entry).
Proof.
  intros Hlook Hacc. unfold add_category. rewrite Hlook, Hacc.
  destruct (convert_all _ _) as [[records m]|]; done.
Qed.

Lemma add_categories_ext t1 t2 entries : forall acc1 acc2,
  Forall (fun e => categories t1 !! e.1 = categories t2 !! e.1) entries ->
  acc1.1 = acc2.1 ->
  result_map fst (add_categories t1 acc1 entries)
  = result_map fst (add_categories t2 acc2 entries).
Proof.
  induction entries as [|entry entries IH]; intros acc1 acc2 Hall Hacc.
  - simpl. by rewrite Hacc.
  - apply Forall_cons in Hall as [He Hall]. simpl.
    pose proof (add_category_ext t1 t2 acc1 acc2 entry He Hacc) as Hstep.
    destruct (add_category t1 acc1 entry) as [acc1'|],
             (add_category t2 acc2 entry) as [acc2'|];
      simpl in *; try done.
    apply IH; [done | congruence].
Qed.

Lemma output_of_ext segs1 segs2 :
  Forall (fun e => categories (tables_of segs1) !! e.1
                   = categories (tables_of segs2) !! e.1) mapping ->
  output_of segs1 = output_of segs2.
Proof.
  intros Hall. unfold output_of, finish.
  pose proof (add_categories_ext (tables_of segs1) (tables_of segs2) mapping
                ([], parse_printed (tables_of segs1))
                ([], parse_printed (tables_of segs2)) Hall eq_refl) as H.
  destruct (add_categories (tables_of segs1) _ mapping) as [[obj1 lg1]|],
           (add_categories (tables_of segs2) _ mapping) as [[obj2 lg2]|];
    simpl in *; congruence.
Qed.

Lemma mapping_is_mapped :
  Forall (fun e : str * str => is_mapped e.1 = true) mapping.
Proof. repeat constructor. Qed.

(** C8.  On every input the output is the one computed from the category
    blocks whose name is a key of the mapping table alone: the blocks of
    any other name contribute nothing to it, whatever they contain. *)
Theorem C8_unmapped_categories_contribute_nothing :
  forall text,
    js_output text
    = output_of (filter (fun seg => is_mapped seg.1 = true)
                        (segments (splitlines text))).
Proof.
  intros text. rewrite js_output_segments. apply output_of_ext.
  eapply Forall_impl; [apply mapping_is_mapped|].
  intros e He. simpl in He. rewrite !categories_lookup.
  rewrite list_filter_filter. do 2 f_equal.
  apply list_filter_iff. intros seg. split; [|tauto].
  intros Hname. split; [done|]. by rewrite Hname.
Qed.

(** C10.  The entry of a category name in the table is what was parsed
    from the last block of the input that bears the name; and a block
    that a later block of the same name follows leaves no trace in the
    output: the output is that of the input without it. *)
Theorem C10_last_block_of_a_name_wins :
  forall raw_lines (name : str),
    categories (build_tables raw_lines) !! name
    = segment_questions
        <$> last (filter (fun seg => seg.1 = name) (segments raw_lines))
    /\ forall segs1 body segs2,
         existsb (fun seg => str_eqb seg.1 name) segs2 = true ->
         output_of (segs1 ++ (name, body) :: segs2)
         = output_of (segs1 ++ segs2).
Proof.
  intros raw_lines name. split; [apply categories_lookup|].
  intros segs1 body segs2 Hlater. apply output_of_ext.
  apply Forall_forall. intros e _. rewrite !categories_lookup.
  f_equal. rewrite !filter_app.
  destruct (decide (name = e.1)) as [Heq|Hne].
  - rewrite filter_cons_True by done.
    assert (Hne : filter (fun seg : str * list str => seg.1 = e.1) segs2 <> []).
    { apply existsb_exists in Hlater as [seg [Hin Hseg]].
      unfold str_eqb in Hseg. apply bool_decide_eq_true in Hseg.
      intros Hnil.
      assert (seg ∈ filter (fun seg : str * list str => seg.1 = e.1) segs2)
        as Hel by (apply list_elem_of_filter; split;
                   [congruence | by apply list_elem_of_In]).
      rewrite Hnil in Hel. by apply not_elem_of_nil in Hel. }
    rewrite !last_app.
    destruct (last (filter _ segs2)) as [seg|] eqn:Hlast.
    + rewrite last_cons, Hlast. done.
    + by apply last_None in Hlast.
  - by rewrite filter_cons_False.
Qed.

(** ** Order *)

Lemma omap_sublist {A B} (f : A -> option B) (l1 l2 : list A) :
  l1 `sublist_of` l2 -> omap f l1 `sublist_of` omap f l2.
Proof.
  induction 1 as [|x l1 l2 _ IH|x l1 l2 _ IH]; simpl.
  - constructor.
  - destruct (f x); [by constructor | done].
  - destruct (f x); [by constructor | done].
Qed.

Lemma suffix_sublist_of {A} (l1 l2 : list A) :
  l1 `suffix_of` l2 -> l1 `sublist_of` l2.
Proof. intros [k ->]. by apply sublist_inserts_l. Qed.

(** An iteration appends at most one record, which bears the ordinal of
    the header line it started on. *)
Lemma step_out cat_name line lines :
  let st := step cat_name (mk_pstate (line :: lines) [] [] []) in
  out st = []
  \/ exists q, out st = [q] /\ question_header line = Some (num q).
Proof.
  unfold step. cbn [remaining out skipped_missing_answer printed].
  destruct (question_header line) as [n|]; [|by left].
  destruct (read_prompt (skip_blank lines)) as [q_lines after_prompt].
  destruct (skip_blank after_prompt) as [|marker after_marker];
    [by left|].
  destruct (is_options_marker marker); [|by left].
  destruct (read_options after_marker) as [opts after_options].
  destruct (skip_blank after_options) as [|answer after_answer];
    [right; by eexists|].
  destruct (answer_line answer); right; by eexists.
Qed.

(** The ordinals of the parsed questions follow the header lines. *)
Lemma scan_out_order fuel cat_name : forall lines,
  List.map num (out (scan_from fuel cat_name lines))
  `sublist_of` omap question_header lines.
Proof.
  unfold scan_from.
  induction fuel as [|fuel IH]; intros lines; [apply sublist_nil_l|].
  destruct lines as [|line lines]; [apply sublist_nil_l|].
  rewrite scan_S by done.
  pose proof (step_out cat_name line lines) as Hout.
  pose proof (step_remaining cat_name (mk_pstate (line :: lines) [] [] [])
                line lines eq_refl) as Hrem.
  destruct (step cat_name (mk_pstate (line :: lines) [] [] []))
    as [r o s p]. cbn [remaining out] in *.
  rewrite scan_frame. cbn [frame out]. rewrite map_app.
  assert (Hrest : List.map num (out (scan_from fuel cat_name r))
                  `sublist_of` omap question_header lines).
  { etrans; [apply IH|]. by apply omap_sublist, suffix_sublist_of. }
  destruct Hout as [->|[q [-> Hq]]]; simpl.
  - destruct (question_header line); [by apply sublist_cons | done].
  - rewrite Hq. by apply sublist_skip.
Qed.

(** The filter step keeps the order of the questions. *)
Lemma convert_all_order qlist : forall acc records m,
  convert_all acc qlist = Ok (records, m) ->
  exists new, records = acc.1 ++ new
              /\ List.map js_id new `sublist_of` List.map num qlist.
Proof.
  induction qlist as [|q qlist IH]; intros acc records m Hconv; simpl in *.
  - injection Hconv as ->. exists []. simpl. by rewrite app_nil_r.
  - destruct (convert acc q) as [acc'|] eqn:Hq; simpl in Hconv; [|done].
    destruct (IH acc' records m Hconv) as [new [-> Hsub]].
    unfold convert in Hq.
    destruct (correct_letters q) as [|l ls].
    + injection Hq as <-. exists new. split; [done|].
      by apply sublist_cons.
    + destruct (letter_indices (l :: ls)) as [indices|]; simpl in Hq;
        [|done].
      injection Hq as <-. simpl. eexists (_ :: new).
      split; [by rewrite <- app_assoc|]. simpl. by apply sublist_skip.
Qed.

(** The body of every category block is a run of lines of the input. *)
Lemma segments_body raw_lines seg :
  seg ∈ segments raw_lines -> seg.2 `sublist_of` raw_lines.
Proof.
  unfold segments. intros Hin.
  apply list_elem_of_In, in_map_iff in Hin as [p [<- _]]. simpl.
  unfold slice. etrans; [apply sublist_take | apply sublist_drop].
Qed.

(** The second loop of [main]: the keys are those of the entries, in
    their order, and the records of a key come from the table entry of a
    name of the entries. *)
Lemma add_categories_items t entries : forall acc obj lg,
  add_categories t acc entries = Ok (obj, lg) ->
  List.map fst obj = List.map fst acc.1 ++ List.map snd entries
  /\ forall item,
       item ∈ obj ->
       item ∈ acc.1
       \/ exists name m,
            convert_all ([], O) (default [] (categories t !! name))
            = Ok (item.2, m).
Proof.
  induction entries as [|entry entries IH]; intros acc obj lg Hadd;
    simpl in Hadd.
  - injection Hadd as ->. rewrite app_nil_r. split; [done|]. by left.
  - destruct (add_category t acc entry) as [acc'|] eqn:Hentry;
      simpl in Hadd; [|done].
    destruct (IH acc' obj lg Hadd) as [Hkeys Hitems].
    unfold add_category in Hentry.
    destruct (convert_all ([], O) (default [] (categories t !! entry.1)))
      as [[records m]|] eqn:Hconv; simpl in Hentry; [|done].
    injection Hentry as <-. simpl in *. split.
    + rewrite Hkeys, map_app. simpl. by rewrite <- app_assoc.
    + intros item Hitem. destruct (Hitems item Hitem) as [Hacc|Hnew].
      * apply elem_of_app in Hacc as [Hacc|Hacc]; [by left|].
        apply list_elem_of_singleton in Hacc as ->. right.
        by exists entry.1, m.
      * by right.
Qed.

(** C7, counterexample.  The order of the categories in the output does
    not come from the input: with the category of "youtube" before that of
    "csa" in the input, the output has "csa" before "youtube", and it is
    the very output of the input with the two categories exchanged. *)
Lemma C7_category_order_not_from_input :
  exists obj,
    js_output youtube_then_csa = Ok obj
    /\ List.map fst (segments (splitlines youtube_then_csa))
       = [py "YOUTUBE DUMPS"; py "CSA EXAM QUESTIONS"]
    /\ List.map fst obj = [py "csa"; py "skillcert"; py "youtube"; py "other"]
    /\ List.map fst (segments (splitlines csa_then_youtube))
       = [py "CSA EXAM QUESTIONS"; py "YOUTUBE DUMPS"]
    /\ js_output csa_then_youtube = Ok obj.
Proof.
  eexists. split; [by vm_compute|]. repeat split; by vm_compute.
Qed.

(** ** Console lines and exceptions of whole runs *)

Lemma skipped_add_segment t seg :
  skipped_by_cat (add_segment t seg)
  = <[seg.1 := (parse_category seg.2 seg.1).1.2]> (skipped_by_cat t).
Proof.
  unfold add_segment.
  by destruct (parse_category seg.2 seg.1) as [[questions skipped] lg].
Qed.

(** The skipped ordinals kept for a name are those of the last block that
    bears it. *)
Lemma skipped_lookup segs (name : str) :
  skipped_by_cat (tables_of segs) !! name
  = (fun seg => (parse_category seg.2 seg.1).1.2)
      <$> last (filter (fun seg => seg.1 = name) segs).
Proof.
  induction segs as [|seg segs IH] using rev_ind; [done|].
  rewrite tables_of_snoc, skipped_add_segment, filter_app.
  destruct (decide (seg.1 = name)) as [Heq|Hne].
  - subst name. rewrite lookup_insert_eq.
    rewrite filter_cons_True by done.
    by rewrite filter_nil, last_snoc.
  - rewrite lookup_insert_ne by done.
    rewrite filter_cons_False by done.
    by rewrite filter_nil, app_nil_r.
Qed.

Lemma add_categories_printed t entries : forall acc obj lg,
  add_categories t acc entries = Ok (obj, lg) ->
  exists more, lg = acc.2 ++ more
    /\ forall entry n nums,
         entry ∈ entries ->
         skipped_by_cat t !! entry.1 = Some (n :: nums) ->
         SkippedListing entry.1 (n :: nums) ∈ more.
Proof.
  induction entries as [|entry entries IH]; intros acc obj lg Hadd;
    simpl in Hadd.
  - injection Hadd as ->. exists []. rewrite app_nil_r. split; [done|].
    intros entry n nums Hin. by apply not_elem_of_nil in Hin.
  - destruct (add_category t acc entry) as [acc'|] eqn:Hentry;
      simpl in Hadd; [|done].
    destruct (IH acc' obj lg Hadd) as [more [-> Hmore]].
    unfold add_category in Hentry.
    destruct (convert_all ([], O) (default [] (categories t !! entry.1)))
      as [[records m]|]; simpl in Hentry; [|done].
    injection Hentry as <-. cbn [snd]. eexists. rewrite <- app_assoc.
    split; [done|].
    intros e n nums He Hskipped.
    apply elem_of_cons in He as [->|He].
    + rewrite Hskipped. rewrite !elem_of_app, !elem_of_cons. left. tauto.
    + apply elem_of_app. right. by apply Hmore.
Qed.

(** In a run that completes, the warnings of the parser are on the
    console, and so is the listing of the skipped ordinals of every
    category of the mapping that has some. *)
Lemma finish_printed t obj lg :
  finish t = Ok (obj, lg) ->
  (forall line, line ∈ parse_printed t -> line ∈ lg)
  /\ forall entry n nums,
       entry ∈ mapping ->
       skipped_by_cat t !! entry.1 = Some (n :: nums) ->
       SkippedListing entry.1 (n :: nums) ∈ lg.
Proof.
  unfold finish. intros Hfin.
  destruct (add_categories t ([], parse_printed t) mapping)
    as [[obj' lg']|] eqn:Hadd; simpl in Hfin; [|done].
  injection Hfin as -> <-.
  apply add_categories_printed in Hadd as [more [-> Hmore]]. simpl. split.
  - intros line Hline. rewrite !elem_of_app. by do 2 left.
  - intros entry n nums He Hs. specialize (Hmore entry n nums He Hs).
    rewrite !elem_of_app. left. by right.
Qed.

Lemma letter_indices_raises letters :
  letter_indices letters = TypeError <-> Exists bad_token letters.
Proof.
  induction letters as [|l letters IH]; simpl.
  - split; [done | by intros H%Exists_nil].
  - rewrite Exists_cons. unfold bad_token at 1.
    destruct l as [|c [|c' l]]; simpl.
    + split; [by left | done].
    + destruct (letter_indices letters) as [indices|]; simpl.
      * split; [done|]. intros [H|H]; [done | by apply IH in H].
      * split; [intros _; right; by apply IH | done].
    + split; [by left | done].
Qed.

Lemma convert_raises acc q :
  convert acc q = TypeError <-> bad_question q.
Proof.
  unfold convert, bad_question.
  destruct (correct_letters q) as [|l ls] eqn:Hletters.
  - split; [done | by intros H%Exists_nil].
  - rewrite <- letter_indices_raises.
    by destruct (letter_indices (l :: ls)).
Qed.

Lemma convert_all_raises qlist : forall acc,
  convert_all acc qlist = TypeError <-> Exists bad_question qlist.
Proof.
  induction qlist as [|q qlist IH]; intros acc; simpl.
  - split; [done | by intros H%Exists_nil].
  - rewrite Exists_cons, <- (convert_raises acc q).
    destruct (convert acc q) as [acc'|]; simpl.
    + rewrite IH. split; [by right | by intros [H|H]].
    + split; [by left | done].
Qed.

Lemma add_categories_raises t entries : forall acc,
  add_categories t acc entries = TypeError
  <-> Exists (fun entry =>
                Exists bad_question (default [] (categories t !! entry.1)))
             entries.
Proof.
  induction entries as [|entry entries IH]; intros acc; simpl.
  - split; [done | by intros H%Exists_nil].
  - rewrite Exists_cons.
    rewrite <- (convert_all_raises _ ([], O)).
    unfold add_category at 1.
    destruct (convert_all ([], O) (default [] (categories t !! entry.1)))
      as [[records m]|]; simpl.
    + rewrite IH. split; [by right | by intros [H|H]].
    + split; [by left | done].
Qed.

(** A run raises exactly when a question kept in the table for a category
    of the mapping has an answer token that is not one character long. *)
Lemma main_raises text :
  main text = TypeError
  <-> Exists (fun entry =>
                Exists bad_question
                       (default [] (categories (build_tables (splitlines text))
                                    !! entry.1)))
             mapping.
Proof.
  unfold main, main_lines, finish.
  rewrite <- (add_categories_raises _ mapping
                ([], parse_printed (build_tables (splitlines text)))).
  destruct (add_categories _ _ mapping) as [[obj lg]|]; simpl; done.
Qed.

(** * Further properties of the parser *)

(** ** [strip] *)

Lemma lstrip_idem s : lstrip (lstrip s) = lstrip s.
Proof.
  induction s as [|c s IH]; simpl; [done|].
  destruct (is_space c) eqn:Hc; [done|]. simpl. by rewrite Hc.
Qed.

Lemma lstrip_snoc s c :
  is_space c = false -> lstrip (s ++ [c]) = lstrip s ++ [c].
Proof.
  intros Hc. induction s as [|d s IH]; simpl; [by rewrite Hc|].
  by destruct (is_space d).
Qed.

Lemma lstrip_nonspace c s : is_space c = false -> lstrip (c :: s) = c :: s.
Proof. intros Hc. simpl. by rewrite Hc. Qed.

Lemma lstrip_cases s :
  lstrip s = [] \/ exists c t, lstrip s = c :: t /\ is_space c = false.
Proof.
  induction s as [|c s IH]; simpl; [by left|].
  destruct (is_space c) eqn:Hc; [done|]. right. by exists c, s.
Qed.

Lemma strip_idem s : strip (strip s) = strip s.
Proof.
  unfold strip, rstrip.
  destruct (lstrip_cases s) as [->|[c [t [-> Hc]]]]; [done|].
  cbn [rev]. rewrite lstrip_snoc by done.
  rewrite rev_app_distr. cbn [rev app].
  rewrite lstrip_nonspace by done.
  cbn [rev]. rewrite rev_involutive, lstrip_snoc by done.
  rewrite lstrip_idem. by rewrite rev_app_distr.
Qed.

Lemma lstrip_suffix s : lstrip s `suffix_of` s.
Proof.
  induction s as [|c s IH]; simpl; [done|].
  destruct (is_space c); [by apply suffix_cons_r | done].
Qed.

Lemma strip_elem c s : c ∈ strip s -> c ∈ s.
Proof.
  unfold strip, rstrip. intros H.
  apply list_elem_of_In, in_rev, list_elem_of_In in H.
  pose proof (elem_of_suffix _ _ _ H (lstrip_suffix _)) as H'.
  apply list_elem_of_In, in_rev, list_elem_of_In in H'.
  exact (elem_of_suffix _ _ _ H' (lstrip_suffix _)).
Qed.

(** ** What a match consists of *)

Lemma greedy_inv k cls : forall s taken g,
  greedy k cls taken s = Some g -> exists taken' rest, k taken' rest = Some g.
Proof.
  induction s as [|c s IH]; intros taken g; simpl; [by eauto|].
  destruct (cls c); [|by eauto].
  destruct (greedy k cls (taken ++ [c]) s) as [g'|] eqn:Hg; [|by eauto].
  intros [= <-]. by eapply IH.
Qed.

Lemma lazy_inv k cls : forall s taken g,
  lazy k cls taken s = Some g -> exists taken' rest, k taken' rest = Some g.
Proof.
  induction s as [|c s IH]; intros taken g; simpl.
  - destruct (k taken []) eqn:Hk; [|done]. intros [= <-]. by eauto.
  - destruct (k taken (c :: s)) eqn:Hk; [intros [= <-]; by eauto|].
    destruct (cls c); [by apply IH | done].
Qed.

Lemma match_item_inv k cls q s g :
  match_item k cls q s = Some g -> exists taken rest, k taken rest = Some g.
Proof.
  destruct q; simpl.
  - destruct s as [|c s]; [done|]. destruct (cls c); [by eauto | done].
  - destruct s as [|c s]; [by eauto|]. destruct (cls c); [|by eauto].
    destruct (k [c] s) eqn:Hk; [intros [= <-]|]; by eauto.
  - apply greedy_inv.
  - destruct s as [|c s]; [done|]. destruct (cls c); [|done].
    apply greedy_inv.
  - apply lazy_inv.
Qed.

(** The groups of a match extend the groups captured before. *)
Lemma re_match_from_groups pat : forall groups s g,
  re_match_from pat groups s = Some g -> exists more, g = groups ++ more.
Proof.
  induction pat as [|[cls q capture|] pat IH]; intros groups s g; simpl.
  - intros [= <-]. exists []. by rewrite app_nil_r.
  - intros [taken [rest H]]%match_item_inv.
    apply IH in H as [more ->]. destruct capture; [|by eauto].
    exists (taken :: more). by rewrite <- app_assoc.
  - destruct (at_end s); [apply IH | done].
Qed.

Lemma re_match_from_item cls q capture pat groups s g :
  re_match_from (Item cls q capture :: pat) groups s = Some g ->
  exists taken rest,
    re_match_from pat (if capture then groups ++ [taken] else groups) rest
    = Some g.
Proof. cbn [re_match_from]. apply match_item_inv. Qed.

Lemma re_match_from_one cls capture pat groups s g :
  re_match_from (Item cls One capture :: pat) groups s = Some g ->
  exists c rest,
    cls c = true
    /\ re_match_from pat (if capture then groups ++ [[c]] else groups) rest
       = Some g.
Proof.
  cbn [re_match_from match_item]. destruct s as [|c s]; [done|].
  destruct (cls c) eqn:Hc; [by eauto | done].
Qed.

(** The first group of an option line is one capital letter. *)
Lemma option_line_letter line letter text :
  option_line line = Some (letter, text) ->
  (exists c, letter = [c] /\ 65 <= c <= 90) /\ trimmed text.
Proof.
  unfold option_line, re_match.
  destruct (re_match_from OPTION_RE [] line) as [g|] eqn:Hg; [|done].
  unfold OPTION_RE in Hg.
  apply re_match_from_item in Hg as (_ & rest & Hg).
  apply re_match_from_one in Hg as (c & rest' & Hc & Hg).
  apply re_match_from_groups in Hg as [more ->]. cbn [app].
  destruct more as [|group more]; [done|]. intros [= <- <-]. split.
  - exists c. split; [done|]. unfold upper_AZ, in_range in Hc.
    apply andb_prop in Hc as [H1 H2]. lia.
  - apply strip_idem.
Qed.

Lemma read_options_wf lines : Forall wf_option (read_options lines).1.
Proof.
  induction lines as [|line lines IH]; simpl; [done|].
  destruct (is_blank line); [done|].
  destruct (read_options lines) as [opts rest]. simpl in *.
  destruct (option_line line) as [[letter text]|] eqn:Hline; [|done].
  constructor; [|done]. by eapply option_line_letter.
Qed.

(** ** Numbers and answer tokens *)

Lemma decimal_value_range c v : decimal_value c = Some v -> 0 <= v <= 9.
Proof.
  unfold decimal_value.
  destruct (List.find _ decimal_zeros) as [z|] eqn:Hfind; [|done].
  intros [= <-]. apply find_some in Hfind as [_ Hz].
  unfold in_range in Hz. apply andb_prop in Hz as [H1 H2]. lia.
Qed.

Lemma int_of_digits_nonneg s : 0 <= int_of_digits s.
Proof.
  unfold int_of_digits.
  assert (H : forall acc, 0 <= acc ->
            0 <= fold_left
                   (fun acc c => 10 * acc + default 0 (decimal_value c)) s acc).
  { induction s as [|c s IH]; intros acc Hacc; simpl; [done|].
    apply IH. destruct (decimal_value c) as [v|] eqn:Hv; simpl; [|lia].
    apply decimal_value_range in Hv. lia. }
  by apply H.
Qed.

Lemma question_header_nonneg line n : question_header line = Some n -> 0 <= n.
Proof.
  unfold question_header.
  destruct (re_match QUESTION_RE line) as [[|digits groups]|]; try done.
  intros [= <-]. apply int_of_digits_nonneg.
Qed.

Lemma split_on_no_separator sep s :
  Forall (fun piece => sep ∉ piece) (split_on sep s).
Proof.
  induction s as [|c s IH]; simpl.
  - constructor; [apply not_elem_of_nil | done].
  - destruct (Z.eqb_spec c sep) as [->|Hne].
    + constructor; [apply not_elem_of_nil | done].
    + destruct (split_on sep s) as [|piece pieces].
      * constructor; [|done]. intros H%list_elem_of_singleton. done.
      * apply Forall_cons in IH as [Hpiece Hpieces].
        constructor; [|done].
        intros [H|H]%elem_of_cons; [by apply Hne | by apply Hpiece].
Qed.

Lemma split_letters_wf part : Forall wf_token (split_letters part).
Proof.
  unfold split_letters. apply Forall_forall. intros token Htoken.
  apply list_elem_of_In, in_map_iff in Htoken as [piece [<- Hpiece]].
  apply filter_In in Hpiece as [Hin Hblank].
  pose proof (split_on_no_separator 44 part) as Hsep.
  rewrite Forall_forall in Hsep.
  apply list_elem_of_In, Hsep in Hin.
  repeat split.
  - unfold is_blank in Hblank. by destruct (strip piece).
  - apply strip_idem.
  - intros H. by apply Hin, strip_elem.
Qed.

Lemma answer_line_wf line letters :
  answer_line line = Some letters -> Forall wf_token letters.
Proof.
  unfold answer_line.
  destruct (re_match CORRECT_RE line) as [[|part groups]|]; try done.
  intros [= <-]. apply split_letters_wf.
Qed.

(** ** The records the parser keeps *)

Lemma step_wf cat_name st :
  Forall wf_parsed (out st) -> Forall wf_parsed (out (step cat_name st)).
Proof.
  intros Hout. unfold step.
  destruct (remaining st) as [|line lines]; [done|].
  destruct (question_header line) as [n|] eqn:Hn; [|done].
  apply question_header_nonneg in Hn.
  destruct (read_prompt (skip_blank lines)) as [q_lines after_prompt].
  destruct (skip_blank after_prompt) as [|marker after_marker]; [done|].
  destruct (is_options_marker marker); [|done].
  pose proof (read_options_wf after_marker) as Hopts.
  destruct (read_options after_marker) as [opts after_options].
  simpl in Hopts.
  assert (Hrecord : forall letters,
            Forall wf_token letters ->
            Forall wf_parsed
                   (out st
                    ++ [mk_parsed n (strip (join (py " ") q_lines)) opts
                                  letters])).
  { intros letters Hletters. apply Forall_app. split; [done|].
    constructor; [|done]. repeat split; try done. apply strip_idem. }
  destruct (skip_blank after_options) as [|answer after_answer];
    cbn [out]; [by apply Hrecord|].
  destruct (answer_line answer) as [letters|] eqn:Hanswer; cbn [out].
  - by apply Hrecord, (answer_line_wf answer).
  - by apply Hrecord.
Qed.

Lemma scan_wf fuel cat_name : forall st,
  Forall wf_parsed (out st) -> Forall wf_parsed (out (scan fuel cat_name st)).
Proof.
  induction fuel as [|fuel IH]; intros st Hout; simpl; [done|].
  destruct (remaining st); [done|]. by apply IH, step_wf.
Qed.

(** X1.  Every record that [parse_category] returns is well formed: its
    ordinal is not negative, its question text and its option texts have
    no white space around them, each option letter is one capital letter,
    and each answer token is a non-empty string without a comma and
    without white space around it (so [ord] is never applied to an empty
    string). *)
Theorem X1_parsed_records_well_formed :
  forall lines cat_name,
    Forall wf_parsed (parse_category lines cat_name).1.1.
Proof.
  intros lines cat_name. unfold parse_category, parse_state. simpl.
  by apply scan_wf.
Qed.

(** X2.  The loop of [parse_category] ends: after as many iterations as
    there are lines the cursor is at the end of the lines, and further
    iterations change nothing. *)
Theorem X2_parse_loop_ends :
  forall lines cat_name extra,
    remaining (parse_state lines cat_name) = []
    /\ scan (length lines + extra) cat_name (mk_pstate lines [] [] [])
       = parse_state lines cat_name.
Proof.
  intros lines cat_name extra. split; [apply parse_category_exhausts|].
  unfold parse_state. apply scan_enough; simpl; lia.
Qed.

(** ** Skipped ordinals *)

Lemma step_skipped cat_name st :
  skipped_missing_answer st
  `sublist_of` List.map num (filter no_letters (out st)) ->
  skipped_missing_answer (step cat_name st)
  `sublist_of` List.map num (filter no_letters (out (step cat_name st))).
Proof.
  intros Hinv. unfold step.
  destruct (remaining st) as [|line lines]; [done|].
  destruct (question_header line) as [n|]; [|done].
  destruct (read_prompt (skip_blank lines)) as [q_lines after_prompt].
  destruct (skip_blank after_prompt) as [|marker after_marker]; [done|].
  destruct (is_options_marker marker); [|done].
  destruct (read_options after_marker) as [opts after_options].
  assert (Hnew : forall text,
            skipped_missing_answer st ++ [n]
            `sublist_of`
            List.map num (filter no_letters
                            (out st ++ [mk_parsed n text opts []]))).
  { intros text. rewrite filter_app, map_app.
    apply sublist_app; [done|].
    by rewrite filter_cons_True, filter_nil. }
  destruct (skip_blank after_options) as [|answer after_answer];
    cbn [out skipped_missing_answer]; [by apply Hnew|].
  destruct (answer_line answer) as [letters|];
    cbn [out skipped_missing_answer]; [|by apply Hnew].
  rewrite filter_app, map_app. by apply sublist_inserts_r.
Qed.

Lemma scan_skipped fuel cat_name : forall st,
  skipped_missing_answer st
  `sublist_of` List.map num (filter no_letters (out st)) ->
  skipped_missing_answer (scan fuel cat_name st)
  `sublist_of` List.map num (filter no_letters (out (scan fuel cat_name st))).
Proof.
  induction fuel as [|fuel IH]; intros st Hinv; simpl; [done|].
  destruct (remaining st); [done|]. by apply IH, step_skipped.
Qed.

(** X3.  The ordinals that [parse_category] returns as skipped are, in
    order, ordinals of records it returns with no answer letters: every
    question listed as skipped is kept in [out] with an empty
    [correct_letters], and is therefore dropped by the filter step. *)
Theorem X3_skipped_are_kept_without_letters :
  forall lines cat_name,
    (parse_category lines cat_name).1.2
    `sublist_of`
    List.map num (filter no_letters (parse_category lines cat_name).1.1).
Proof.
  intros lines cat_name. unfold parse_category, parse_state. simpl.
  apply scan_skipped. simpl. constructor.
Qed.

(** ** The filter step, record by record *)

Lemma letter_indices_length letters indices :
  letter_indices letters = Ok indices -> length indices = length letters.
Proof.
  revert indices. induction letters as [|l letters IH]; intros indices; simpl.
  - by intros [= <-].
  - destruct (ord l) as [c|]; simpl; [|done].
    destruct (letter_indices letters) as [indices'|]; simpl; [|done].
    intros [= <-]. simpl. by rewrite (IH indices').
Qed.

Lemma convert_all_records qlist : forall acc records m,
  convert_all acc qlist = Ok (records, m) ->
  exists new,
    records = acc.1 ++ new
    /\ Forall2 made_from new (filter has_letters qlist)
    /\ Forall (fun r => wf_correct (correct r)) new
    /\ m = (acc.2 + length (filter no_letters qlist))%nat.
Proof.
  induction qlist as [|q qlist IH]; intros acc records m Hconv; simpl in *.
  - injection Hconv as ->. exists []. simpl. rewrite app_nil_r.
    split_and!; [done | constructor | constructor | lia].
  - destruct (convert acc q) as [acc'|] eqn:Hq; simpl in Hconv; [|done].
    destruct (IH acc' records m Hconv) as (new & -> & Hnew & Hwf & ->).
    unfold convert in Hq.
    destruct (correct_letters q) as [|l ls] eqn:Hletters.
    + injection Hq as <-. exists new. simpl.
      rewrite filter_cons_False
        by (unfold has_letters; rewrite Hletters; intros H; by apply H).
      rewrite filter_cons_True by done. simpl.
      split_and!; [done | done | done | lia].
    + destruct (letter_indices (l :: ls)) as [indices|] eqn:Hindices;
        simpl in Hq; [|done].
      injection Hq as <-. simpl.
      rewrite filter_cons_True by (unfold has_letters; by rewrite Hletters).
      rewrite filter_cons_False by (unfold no_letters; by rewrite Hletters).
      eexists (_ :: new). rewrite <- app_assoc.
      apply letter_indices_length in Hindices as Hlen. simpl in Hlen.
      split_and!; [done | | | lia].
      * constructor; [|done]. unfold made_from. simpl.
        rewrite Hletters, Hindices.
        split_and!; try done. f_equal.
        by destruct indices as [|i [|j indices]].
      * constructor; [|done]. simpl.
        destruct indices as [|i [|j indices]]; simpl in *; [done|done|lia].
Qed.

(** X4.  When the filter step completes on the questions of a category,
    the records it includes are made, in order, from the questions that
    have answer letters (same id, question text, option texts, and the
    indices of the letters); the number it reports as skipped is the
    number of questions without answer letters; and the two counts add up
    to the number of parsed questions. *)
Theorem X4_filter_step_accounts_for_every_question :
  forall qlist records missing,
    convert_all ([], O) qlist = Ok (records, missing) ->
    Forall2 made_from records (filter has_letters qlist)
    /\ missing = length (filter no_letters qlist)
    /\ (length records + missing)%nat = length qlist.
Proof.
  intros qlist records missing Hconv.
  apply convert_all_records in Hconv as (new & -> & Hnew & _ & ->).
  simpl. split_and!; [done | done |].
  apply Forall2_length in Hnew. rewrite Hnew.
  clear. induction qlist as [|q qlist IH]; [done|].
  destruct (decide (correct_letters q = [])) as [Hq|Hq].
  - rewrite filter_cons_False by (unfold has_letters; tauto).
    rewrite filter_cons_True by done. simpl. lia.
  - rewrite filter_cons_True by done.
    rewrite filter_cons_False by done. simpl. lia.
Qed.

Lemma X4_filter_step_accounts_for_every_question_witness :
  Forall2 made_from
    [mk_js 3 (py "Pick two") [py "x"; py "y"] (Multi [0; 1])]
    (filter has_letters
       [mk_parsed 2 (py "Lost") [] [];
        mk_parsed 3 (py "Pick two") [(py "A", py "x"); (py "B", py "y")]
                  [py "A"; py "B"]])
  /\ 1%nat
     = length (filter no_letters
                 [mk_parsed 2 (py "Lost") [] [];
                  mk_parsed 3 (py "Pick two")
                            [(py "A", py "x"); (py "B", py "y")]
                            [py "A"; py "B"]])
  /\ Nat.add
       (length [mk_js 3 (py "Pick two") [py "x"; py "y"] (Multi [0; 1])])
       1%nat
     = length [mk_parsed 2 (py "Lost") [] [];
               mk_parsed 3 (py "Pick two")
                         [(py "A", py "x"); (py "B", py "y")]
                         [py "A"; py "B"]].
Proof.
  apply (X4_filter_step_accounts_for_every_question
           [mk_parsed 2 (py "Lost") [] [];
            mk_parsed 3 (py "Pick two") [(py "A", py "x"); (py "B", py "y")]
                      [py "A"; py "B"]]).
  reflexivity.
Defined.

(** ** Whole runs, category by category *)

Lemma questions_for_lookup raw_lines name :
  default [] (categories (build_tables raw_lines) !! name)
  = questions_for raw_lines name.
Proof. unfold build_tables. by rewrite categories_lookup. Qed.

Lemma skipped_for_lookup raw_lines name :
  default [] (skipped_by_cat (build_tables raw_lines) !! name)
  = skipped_for raw_lines name.
Proof. unfold build_tables. by rewrite skipped_lookup. Qed.

Lemma parse_printed_add_segment t seg :
  parse_printed (add_segment t seg)
  = parse_printed t ++ (parse_category seg.2 seg.1).2.
Proof.
  unfold add_segment.
  by destruct (parse_category seg.2 seg.1) as [[questions skipped] lg].
Qed.

Lemma parser_lines_printed raw_lines :
  parse_printed (build_tables raw_lines) = parser_lines raw_lines.
Proof.
  unfold build_tables, parser_lines.
  induction (segments raw_lines) as [|seg segs IH] using rev_ind; [done|].
  rewrite tables_of_snoc, parse_printed_add_segment, IH.
  rewrite map_app, concat_app. simpl. by rewrite app_nil_r.
Qed.

(** The second loop of [main], entry by entry: the item it adds and the
    lines it prints, from the records and the count of the filter step. *)
Lemma add_categories_done raw_lines entries : forall acc obj lg,
  add_categories (build_tables raw_lines) acc entries = Ok (obj, lg) ->
  exists done : list (list js_record * nat),
    Forall2 (fun entry d =>
               convert_all ([], O) (questions_for raw_lines entry.1) = Ok d)
            entries done
    /\ obj = acc.1
             ++ List.map (fun p => ((fst p).2, (snd p).1))
                         (combine entries done)
    /\ lg = acc.2
            ++ concat (List.map
                         (fun p => category_lines raw_lines (fst p)
                                     (length (snd p).1) (snd p).2)
                         (combine entries done)).
Proof.
  induction entries as [|entry entries IH]; intros acc obj lg Hadd;
    simpl in Hadd.
  - injection Hadd as ->. exists []. simpl. rewrite !app_nil_r.
    split_and!; [constructor | done | done].
  - destruct (add_category _ acc entry) as [acc'|] eqn:Hentry;
      simpl in Hadd; [|done].
    destruct (IH acc' obj lg Hadd) as (done' & Hdone & -> & ->).
    unfold add_category in Hentry.
    rewrite questions_for_lookup in Hentry.
    destruct (convert_all ([], O) (questions_for raw_lines entry.1))
      as [[records m]|] eqn:Hconv; simpl in Hentry; [|done].
    injection Hentry as <-. cbn [fst snd].
    exists ((records, m) :: done').
    cbn [List.map combine concat fst snd].
    rewrite <- !app_assoc. split_and!; [by constructor | done |].
    f_equal. cbn [app]. f_equal. unfold category_lines. cbn [fst snd].
    rewrite <- skipped_for_lookup.
    by destruct (skipped_by_cat _ !! entry.1) as [[|n nums]|].
Qed.

Lemma main_done text obj lg :
  main text = Ok (obj, lg) ->
  exists done : list (list js_record * nat),
    Forall2 (fun entry d =>
               convert_all ([], O) (questions_for (splitlines text) entry.1)
               = Ok d)
            mapping done
    /\ obj = List.map (fun p => ((fst p).2, (snd p).1)) (combine mapping done)
    /\ lg = parser_lines (splitlines text)
            ++ concat (List.map
                         (fun p => category_lines (splitlines text) (fst p)
                                     (length (snd p).1) (snd p).2)
                         (combine mapping done))
            ++ WroteTo OUTPUT_FILE
               :: List.map
                    (fun e => WroteCount e.2 (length (js_get obj e.2)))
                    mapping.
Proof.
  unfold main, main_lines, finish. intros Hmain.
  destruct (add_categories _ _ mapping) as [[obj' lg']|] eqn:Hadd;
    simpl in Hmain; [|done].
  injection Hmain as -> <-.
  apply add_categories_done in Hadd as (done & Hdone & -> & ->).
  exists done. cbn [fst snd app]. rewrite parser_lines_printed.
  split_and!; [done | done |]. by rewrite <- app_assoc.
Qed.

Lemma questions_for_wf raw_lines name :
  Forall wf_parsed (questions_for raw_lines name).
Proof.
  unfold questions_for. destruct (last_block raw_lines name) as [seg|];
    simpl; [|done].
  unfold segment_questions, parse_category, parse_state. simpl.
  by apply scan_wf.
Qed.

(** X5.  In a run that completes, the output holds one item for each entry
    of the mapping table, in the order of the table, under the key of the
    entry; its records are made, in order, from the questions with answer
    letters of the last category block of the input that bears the name
    of the entry (from none when no block bears it). *)
Theorem X5_output_item_per_mapping_entry :
  forall text obj lg,
    main text = Ok (obj, lg) ->
    Forall2 (fun item entry =>
               item.1 = entry.2
               /\ Forall2 made_from item.2
                    (filter has_letters
                            (questions_for (splitlines text) entry.1)))
            obj mapping.
Proof.
  intros text obj lg Hmain.
  apply main_done in Hmain as (done & Hdone & -> & _).
  induction Hdone as [|entry [records m] entries done Hentry _ IH];
    cbn [combine List.map]; constructor; [|done].
  split; [done|]. cbn [fst snd].
  by apply convert_all_records in Hentry as (new & -> & Hnew & _ & _).
Qed.

Lemma X5_output_item_per_mapping_entry_witness :
  exists obj lg,
    main (scenario "Correct Answer: B") = Ok (obj, lg)
    /\ Forall2 (fun item entry =>
                  item.1 = entry.2
                  /\ Forall2 made_from item.2
                       (filter has_letters
                          (questions_for
                             (splitlines (scenario "Correct Answer: B"))
                             entry.1)))
               obj mapping.
Proof.
  eexists _, _. split; [vm_compute; reflexivity|].
  eapply (X5_output_item_per_mapping_entry (scenario "Correct Answer: B")).
  vm_compute. reflexivity.
Defined.

Lemma made_from_wf r q : made_from r q -> wf_parsed q -> trimmed (js_question r)
  /\ 0 <= js_id r /\ Forall trimmed (js_options r).
Proof.
  intros (Hid & Hq & Hopts & _) (Hnum & Htext & Hoptions & _).
  rewrite Hid, Hq, Hopts. split_and!; [done | done |].
  apply Forall_forall. intros text Htext'.
  apply list_elem_of_In, in_map_iff in Htext' as [o [<- Ho]].
  rewrite Forall_forall in Hoptions.
  by apply list_elem_of_In, Hoptions in Ho as [_ Ho].
Qed.

Lemma convert_all_wf qlist records m :
  Forall wf_parsed qlist ->
  convert_all ([], O) qlist = Ok (records, m) ->
  Forall wf_record records.
Proof.
  intros Hwf Hconv.
  apply convert_all_records in Hconv as (new & -> & Hnew & Hcorrect & _).
  simpl.
  assert (Hkept : Forall wf_parsed (filter has_letters qlist)).
  { apply Forall_forall. intros q [_ Hq]%list_elem_of_filter.
    rewrite Forall_forall in Hwf. by apply Hwf. }
  clear Hwf. revert Hcorrect Hkept.
  induction Hnew as [|r q new kept Hrq _ IH]; intros Hcorrect Hkept;
    [done|].
  apply Forall_cons in Hcorrect as [Hr Hcorrect].
  apply Forall_cons in Hkept as [Hq Hkept].
  constructor; [|by apply IH].
  destruct (made_from_wf r q Hrq Hq) as (H1 & H2 & H3).
  by split_and!.
Qed.

(** X6.  In a run that completes, every record of the output is well
    formed: its id is not negative, its question text and its option texts
    have no white space around them, and its "correct" value is a bare
    index or a list of at least two indices (never an empty list, never a
    list of one). *)
Theorem X6_output_records_well_formed :
  forall text obj lg,
    main text = Ok (obj, lg) ->
    Forall (fun item => Forall wf_record item.2) obj.
Proof.
  intros text obj lg Hmain.
  apply main_done in Hmain as (done & Hdone & -> & _).
  induction Hdone as [|entry [records m] entries done Hentry _ IH];
    cbn [combine List.map]; constructor; [|done].
  cbn [fst snd]. eapply convert_all_wf; [|exact Hentry].
  apply questions_for_wf.
Qed.

Lemma X6_output_records_well_formed_witness :
  exists obj lg,
    main (scenario "Correct Answers: A, C") = Ok (obj, lg)
    /\ Forall (fun item => Forall wf_record item.2) obj.
Proof.
  eexists _, _. split; [vm_compute; reflexivity|].
  eapply (X6_output_records_well_formed (scenario "Correct Answers: A, C")).
  vm_compute. reflexivity.
Defined.

(** X7.  On an input in which no question header has more digits than
    [int] accepts (so that [int] raises on none), a run raises exactly
    when, for some entry of the mapping table, a question parsed from the
    last category block that bears the name of the entry has an answer
    token that is not one character long, and what it raises is
    [TypeError]; the questions of other blocks never make it raise. *)
Theorem X7_run_raises_exactly_on_long_tokens :
  forall text,
    within_int_limit (splitlines text) = true ->
    (main text = TypeError
     <-> Exists (fun entry =>
                   Exists bad_question
                          (questions_for (splitlines text) entry.1))
                mapping).
Proof.
  intros text _. rewrite main_raises.
  split; intros H; eapply Exists_impl; try exact H;
    intros entry; cbn beta; by rewrite questions_for_lookup.
Qed.

Lemma X7_run_raises_exactly_on_long_tokens_witness :
  main (scenario "Correct Answer: A and C") = TypeError
  <-> Exists (fun entry =>
                Exists bad_question
                       (questions_for
                          (splitlines (scenario "Correct Answer: A and C"))
                          entry.1))
             mapping.
Proof.
  apply (X7_run_raises_exactly_on_long_tokens
           (scenario "Correct Answer: A and C")).
  reflexivity.
Defined.

Lemma filter_letters_length qlist :
  (length (filter has_letters qlist) + length (filter no_letters qlist))%nat
  = length qlist.
Proof.
  induction qlist as [|q qlist IH]; [done|].
  destruct (decide (correct_letters q = [])) as [Hq|Hq].
  - rewrite filter_cons_False by (unfold has_letters; tauto).
    rewrite filter_cons_True by done. simpl. lia.
  - rewrite filter_cons_True by done.
    rewrite filter_cons_False by done. simpl. lia.
Qed.

(** X8.  The console of a run that completes: first what the parser
    printed for every category block of the input, in the order of the
    blocks (also for blocks whose name is not in the mapping table and for
    blocks that a later block of the same name replaces); then, for each
    entry of the table, the report with the number of records included
    and the number of questions skipped, which add up to the number of
    questions parsed for the entry, followed by the listing of the skipped
    ordinals when there are some; and last the line that names the output
    file and the number of records written under each key. *)
Theorem X8_console_of_a_run :
  forall text obj lg,
    main text = Ok (obj, lg) ->
    exists counts : list (nat * nat),
      Forall2 (fun entry c =>
                 c.1 = length (js_get obj entry.2)
                 /\ c.2 = length (filter no_letters
                                    (questions_for (splitlines text) entry.1))
                 /\ (c.1 + c.2)%nat
                    = length (questions_for (splitlines text) entry.1))
              mapping counts
      /\ lg = parser_lines (splitlines text)
              ++ concat (List.map
                           (fun p => category_lines (splitlines text) (fst p)
                                       (snd p).1 (snd p).2)
                           (combine mapping counts))
              ++ WroteTo OUTPUT_FILE
                 :: List.map (fun p => WroteCount (fst p).2 (snd p).1)
                             (combine mapping counts).
Proof.
  intros text obj lg Hmain.
  apply main_done in Hmain as (done & Hdone & -> & ->).
  unfold mapping in *.
  repeat (apply Forall2_cons_inv_l in Hdone as (? & ? & ? & Hdone & ->)).
  apply Forall2_nil_inv_l in Hdone as ->.
  repeat match goal with
         | d : (list js_record * nat)%type |- _ => destruct d as [? ?]
         end.
  repeat match goal with
         | H : convert_all _ _ = Ok _ |- _ =>
             apply convert_all_records in H as (? & -> & ?%Forall2_length & _ & ->)
         end.
  cbn [fst snd app combine List.map] in *.
  eexists [(_, _); (_, _); (_, _); (_, _)]. split.
  - repeat apply Forall2_cons_2; [..|apply Forall2_nil_2];
      (split_and!; [reflexivity | reflexivity |]);
      cbn [fst snd];
      match goal with
      | |- (_ + _)%nat = length ?qlist =>
          rewrite <- (filter_letters_length qlist)
      end;
      f_equal;
      match goal with
      | H : length _ = length (filter has_letters _) |- _ => exact H
      end.
  - reflexivity.
Qed.

(** ** The category splitter *)

Lemma startswith_app s prefix :
  startswith s prefix = true -> s = prefix ++ skipn (length prefix) s.
Proof.
  revert s. induction prefix as [|p prefix IH]; intros s; simpl; [done|].
  destruct s as [|c s]; [done|].
  intros [Hc Hs]%andb_prop. apply Z.eqb_eq in Hc as ->.
  f_equal. by apply IH.
Qed.

(** The text after the first colon of a header line is the text after the
    marker: the index [1] of the split always exists. *)
Lemma header_split line :
  is_header line = true -> split_once 58 line = [py "CATEGORY"; skipn 9 line].
Proof.
  intros H. apply startswith_app in H.
  change (length (py "CATEGORY:")) with 9%nat in H.
  rewrite H at 1. reflexivity.
Qed.

Lemma headers_from_cons k line lines :
  headers_from k (line :: lines)
  = (if is_header line then [k] else []) ++ headers_from (S k) lines.
Proof.
  unfold headers_from, is_header. cbn [length seq combine List.filter snd].
  by destruct (startswith line (py "CATEGORY:")).
Qed.

Lemma cat_indices_headers raw_lines :
  cat_indices raw_lines = headers_from 0 raw_lines ++ [length raw_lines].
Proof. done. Qed.

Lemma first_index_after k lines :
  hd O (headers_from k lines ++ [(k + length lines)%nat])
  = (k + length (body_of lines))%nat.
Proof.
  revert k. induction lines as [|line lines IH]; intros k; [done|].
  rewrite headers_from_cons. cbn [body_of length].
  destruct (is_header line); cbn [app hd length]; [lia|].
  replace (k + S (length lines))%nat with (S k + length lines)%nat by lia.
  rewrite IH. lia.
Qed.

Lemma firstn_body_of lines : firstn (length (body_of lines)) lines = body_of lines.
Proof.
  induction lines as [|line lines IH]; [done|]. simpl.
  destruct (is_header line); simpl; [done | by rewrite IH].
Qed.

Lemma combine_consecutive (k : nat) (rest : list nat) :
  rest <> [] ->
  combine (removelast (k :: rest)) (tl (k :: rest))
  = (k, hd O rest) :: combine (removelast rest) (tl rest).
Proof. by destruct rest as [|r rest]. Qed.

Lemma segments_from lines : forall pre,
  List.map
    (fun p : nat * nat =>
       (strip (nth 1 (split_once 58 (nth (fst p) (pre ++ lines) [])) []),
        slice (S (fst p)) (snd p) (pre ++ lines)))
    (combine
       (removelast (headers_from (length pre) lines
                    ++ [(length pre + length lines)%nat]))
       (tl (headers_from (length pre) lines
            ++ [(length pre + length lines)%nat])))
  = split_blocks lines.
Proof.
  induction lines as [|line lines IH]; intros pre; [done|].
  rewrite headers_from_cons. cbn [split_blocks length].
  replace (length pre + S (length lines))%nat
    with (length (pre ++ [line]) + length lines)%nat
    by (rewrite length_app; simpl; lia).
  replace (S (length pre)) with (length (pre ++ [line]))
    by (rewrite length_app; simpl; lia).
  replace (pre ++ line :: lines) with ((pre ++ [line]) ++ lines)
    by (by rewrite <- app_assoc).
  destruct (is_header line) eqn:Hline; cbn [app]; [|apply IH].
  rewrite combine_consecutive by (by destruct (headers_from _ lines)).
  cbn [List.map fst snd]. rewrite IH. f_equal.
  rewrite first_index_after. f_equal.
  - rewrite <- app_assoc. cbn [app]. rewrite nth_middle.
    by rewrite header_split.
  - unfold slice.
    replace (S (length pre)) with (length (pre ++ [line]))
      by (rewrite length_app; simpl; lia).
    rewrite skipn_app, skipn_all, Nat.sub_diag. cbn [skipn app].
    replace (length (pre ++ [line]) + length (body_of lines)
             - length (pre ++ [line]))%nat
      with (length (body_of lines)) by lia.
    apply firstn_body_of.
Qed.

Lemma segments_one_pass raw_lines : segments raw_lines = split_blocks raw_lines.
Proof.
  unfold segments. rewrite cat_indices_headers.
  exact (segments_from raw_lines []).
Qed.

(** X9.  The category blocks that [main] cuts out through the indices of
    the header lines are those of one forward pass over the lines: every
    line that starts with the marker opens a block, named by the stripped
    text after the marker (the split at the first colon always has the
    two parts that [main] indexes), whose body is the run of lines up to
    the next header line or the end of the input. *)
Theorem X9_blocks_in_one_pass :
  forall raw_lines, segments raw_lines = split_blocks raw_lines.
Proof. apply segments_one_pass. Qed.

Lemma split_blocks_names lines :
  List.map fst (split_blocks lines)
  = List.map (fun header => strip (skipn 9 header))
             (List.filter is_header lines).
Proof.
  induction lines as [|line lines IH]; [done|]. simpl.
  destruct (is_header line); simpl; by rewrite ?IH.
Qed.

Lemma body_of_nonheader lines : forallb nonheader (body_of lines) = true.
Proof.
  induction lines as [|line lines IH]; [done|]. simpl.
  destruct (is_header line) eqn:Hline; [done|]. simpl.
  unfold nonheader at 1. by rewrite Hline.
Qed.

Lemma split_blocks_bodies lines :
  Forall (fun seg : str * list str => forallb nonheader seg.2 = true)
         (split_blocks lines).
Proof.
  induction lines as [|line lines IH]; [done|]. simpl.
  destruct (is_header line); [|done].
  constructor; [apply body_of_nonheader | done].
Qed.

Lemma body_of_blocks lines :
  body_of lines ++ concat (List.map snd (split_blocks lines))
  = List.filter nonheader lines.
Proof.
  induction lines as [|line lines IH]; [done|]. simpl. unfold nonheader at 1.
  destruct (is_header line); simpl; [done | by rewrite IH].
Qed.

Lemma split_blocks_concat lines :
  concat (List.map snd (split_blocks lines))
  = List.filter nonheader (drop_preamble lines).
Proof.
  induction lines as [|line lines IH]; [done|]. simpl.
  destruct (is_header line) eqn:Hline; [|done]. simpl.
  unfold nonheader at 1. rewrite Hline. simpl. apply body_of_blocks.
Qed.

(** X10.  The blocks partition the input from its first header line on:
    there is one block for each header line, in order, named by the
    stripped text after its marker; no body holds a header line; and the
    bodies, one after the other, are exactly the lines of the input from
    the first header line on that are not header lines, so that no such
    line is lost, repeated or moved. *)
Theorem X10_blocks_partition_the_input :
  forall raw_lines,
    List.map fst (segments raw_lines)
    = List.map (fun header => strip (skipn 9 header))
               (List.filter is_header raw_lines)
    /\ Forall (fun seg : str * list str => forallb nonheader seg.2 = true)
              (segments raw_lines)
    /\ concat (List.map snd (segments raw_lines))
       = List.filter nonheader (drop_preamble raw_lines).
Proof.
  intros raw_lines. rewrite segments_one_pass.
  split_and!;
    [apply split_blocks_names | apply split_blocks_bodies
     | apply split_blocks_concat].
Qed.

Lemma split_blocks_preamble pre lines :
  forallb nonheader pre = true ->
  split_blocks (pre ++ lines) = split_blocks lines.
Proof.
  induction pre as [|line pre IH]; [done|]. simpl.
  intros [Hline Hpre]%andb_prop. unfold nonheader in Hline.
  destruct (is_header line); [done | by apply IH].
Qed.

(** X11.  The lines before the first header line are ignored: a run on an
    input gives the same result, output and console, as the run on the
    input without lines that precede the first header line. *)
Theorem X11_lines_before_first_header_ignored :
  forall pre raw_lines,
    forallb nonheader pre = true ->
    segments (pre ++ raw_lines) = segments raw_lines
    /\ main_lines (pre ++ raw_lines) = main_lines raw_lines.
Proof.
  intros pre raw_lines Hpre.
  assert (Hseg : segments (pre ++ raw_lines) = segments raw_lines)
    by (rewrite !segments_one_pass; by apply split_blocks_preamble).
  split; [done|]. unfold main_lines, build_tables. by rewrite Hseg.
Qed.

Lemma X11_lines_before_first_header_ignored_witness :
  segments (lines_of ["Question 1:"; "Lost"; ""]
            ++ lines_of ["CATEGORY: YOUTUBE DUMPS"; "Question 8:"])
  = segments (lines_of ["CATEGORY: YOUTUBE DUMPS"; "Question 8:"])
  /\ main_lines (lines_of ["Question 1:"; "Lost"; ""]
                 ++ lines_of ["CATEGORY: YOUTUBE DUMPS"; "Question 8:"])
     = main_lines (lines_of ["CATEGORY: YOUTUBE DUMPS"; "Question 8:"]).
Proof.
  apply (X11_lines_before_first_header_ignored
           (lines_of ["Question 1:"; "Lost"; ""])
           (lines_of ["CATEGORY: YOUTUBE DUMPS"; "Question 8:"])).
  reflexivity.
Defined.

(** X12.  An input without header line (the empty input among them) has no
    category block: the run completes, the output holds the four keys
    with no record, and the console holds the four reports, the line that
    names the output file and the four counts, all zero. *)
Theorem X12_input_without_header :
  forall text,
    forallb nonheader (splitlines text) = true ->
    main text
    = Ok (empty_output,
          List.map (fun e => CategoryReport e.1 e.2 O O) mapping
          ++ WroteTo OUTPUT_FILE
             :: List.map (fun e => WroteCount e.2 O) mapping).
Proof.
  intros text Hlines. unfold main, main_lines, build_tables.
  rewrite segments_one_pass.
  rewrite <- (app_nil_r (splitlines text)).
  rewrite split_blocks_preamble by done. by vm_compute.
Qed.

Lemma X12_input_without_header_witness :
  main (text_of ["Question 1:"; "What is 2+2?"; ""; "Options:"; "A. 3"; "";
                 "Correct Answer: A"])
  = Ok (empty_output,
        List.map (fun e => CategoryReport e.1 e.2 O O) mapping
        ++ WroteTo OUTPUT_FILE
           :: List.map (fun e => WroteCount e.2 O) mapping).
Proof.
  apply (X12_input_without_header
           (text_of ["Question 1:"; "What is 2+2?"; ""; "Options:"; "A. 3";
                     ""; "Correct Answer: A"])).
  reflexivity.
Defined.

Lemma X8_console_of_a_run_witness :
  exists obj lg,
    main (scenario "Answer: B") = Ok (obj, lg)
    /\ exists counts : list (nat * nat),
         Forall2 (fun entry c =>
                    c.1 = length (js_get obj entry.2)
                    /\ c.2 = length
                               (filter no_letters
                                  (questions_for
                                     (splitlines (scenario "Answer: B"))
                                     entry.1))
                    /\ (c.1 + c.2)%nat
                       = length (questions_for
                                   (splitlines (scenario "Answer: B"))
                                   entry.1))
                 mapping counts
         /\ lg = parser_lines (splitlines (scenario "Answer: B"))
                 ++ concat (List.map
                              (fun p =>
                                 category_lines
                                   (splitlines (scenario "Answer: B"))
                                   (fst p) (snd p).1 (snd p).2)
                              (combine mapping counts))
                 ++ WroteTo OUTPUT_FILE
                    :: List.map (fun p => WroteCount (fst p).2 (snd p).1)
                                (combine mapping counts).
Proof.
  eexists _, _. split; [vm_compute; reflexivity|].
  eapply (X8_console_of_a_run (scenario "Answer: B")).
  vm_compute. reflexivity.
Defined.

(** ** Lines that the patterns accept *)

(** A greedy item that can take a whole run, after which the rest of the
    pattern matches, takes it. *)
Lemma greedy_run k cls run s g : forall taken,
  forallb cls run = true -> stops cls s = true ->
  k (taken ++ run) s = Some g ->
  greedy k cls taken (run ++ s) = Some g.
Proof.
  induction run as [|c run IH]; intros taken Hrun Hs Hk; simpl.
  - rewrite app_nil_r in Hk. destruct s as [|c s]; simpl; [done|].
    simpl in Hs. destruct (cls c); simpl in Hs; [discriminate | done].
  - simpl in Hrun. apply andb_prop in Hrun as [-> Hrun].
    rewrite (IH (taken ++ [c]) Hrun Hs); [done|].
    by rewrite <- app_assoc.
Qed.

Lemma lit_match word pat groups s :
  re_match_from (List.map (fun p => Item (chr_is p) One false) word ++ pat)
                groups (word ++ s)
  = re_match_from pat groups s.
Proof.
  induction word as [|p word IH]; [done|].
  cbn [List.map app re_match_from match_item]. unfold chr_is at 1.
  by rewrite Z.eqb_refl.
Qed.

Lemma lit_ci_match word : forall w pat groups s,
  same_ci word w = true ->
  re_match_from (List.map (fun p => Item (chr_ci p) One false) word ++ pat)
                groups (w ++ s)
  = re_match_from pat groups s.
Proof.
  induction word as [|p word IH]; intros [|c w] pat groups s; simpl; try done.
  intros [-> Hw]%andb_prop. by apply IH.
Qed.

Lemma digit_not_space c : is_digit c = true -> is_space c = false.
Proof.
  unfold is_digit, decimal_value.
  destruct (List.find _ decimal_zeros) as [z|] eqn:Hfind; [|done].
  intros _. apply find_some in Hfind as [Hin Hz].
  unfold in_range in Hz. apply andb_prop in Hz as [H1 H2].
  apply Z.leb_le in H1, H2.
  unfold is_space, in_range.
  rewrite !orb_false_iff, !andb_false_iff, !Z.leb_gt, !Z.eqb_neq.
  unfold decimal_zeros in Hin. simpl in Hin.
  repeat (destruct Hin as [<-|Hin]; [lia|]). done.
Qed.

Lemma capital_not_space c : upper_AZ c = true -> is_space c = false.
Proof.
  unfold upper_AZ, in_range. intros [H1 H2]%andb_prop.
  apply Z.leb_le in H1, H2.
  unfold is_space, in_range.
  rewrite !orb_false_iff, !andb_false_iff, !Z.leb_gt, !Z.eqb_neq. lia.
Qed.

(** X13.  A line made of the word "Question", some white space, some
    decimal digits, no more of them than [int] accepts, and a colon is a
    question header whose ordinal is the number that the digits write,
    whatever follows the colon on the line. *)
Theorem X13_question_header_accepted :
  forall w ws d digits rest_of_line,
    forallb is_space (w :: ws) = true ->
    forallb is_digit (d :: digits) = true ->
    (length (d :: digits) <= int_max_str_digits)%nat ->
    question_header
      (py "Question" ++ (w :: ws) ++ (d :: digits) ++ 58 :: rest_of_line)
    = Some (int_of_digits (d :: digits)).
Proof.
  intros w ws d digits rest_of_line Hws Hdigits _.
  simpl in Hws, Hdigits.
  apply andb_prop in Hws as [Hw Hws].
  apply andb_prop in Hdigits as [Hd Hdigits].
  assert (Hmatch : re_match QUESTION_RE
                     (py "Question" ++ (w :: ws) ++ (d :: digits)
                      ++ 58 :: rest_of_line)
                   = Some [d :: digits]);
    [|unfold question_header; by rewrite Hmatch].
  unfold re_match, QUESTION_RE, lit. rewrite lit_match.
  cbn [app re_match_from match_item]. rewrite Hw.
  apply greedy_run; [done | simpl; by rewrite (digit_not_space d) |].
  cbn [app re_match_from match_item]. rewrite Hd.
  apply greedy_run; [done | done |].
  reflexivity.
Qed.

Lemma X13_question_header_accepted_witness :
  question_header
    (py "Question" ++ [32; 9] ++ py "12" ++ 58 :: py " ignored")
  = Some (int_of_digits (py "12")).
Proof.
  apply (X13_question_header_accepted 32 [9] 49 [50] (py " ignored"));
    [reflexivity | reflexivity | vm_compute; lia].
Defined.

(** X15.  A line made of optional white space, one capital letter, a full
    stop, optional white space and a text without line feed is an option
    line: its letter is the capital letter and its text is the text
    without the white space around it. *)
Theorem X15_option_line_accepted :
  forall ws c ws' text,
    forallb is_space ws = true -> upper_AZ c = true ->
    forallb is_space ws' = true ->
    forallb any_char text = true -> stops is_space text = true ->
    option_line (ws ++ c :: 46 :: ws' ++ text) = Some ([c], strip text).
Proof.
  intros ws c ws' text Hws Hc Hws' Htext Hstop.
  assert (Hmatch : re_match OPTION_RE (ws ++ c :: 46 :: ws' ++ text)
                   = Some [[c]; text]);
    [|unfold option_line; by rewrite Hmatch].
  unfold re_match, OPTION_RE. cbn [re_match_from match_item].
  apply greedy_run; [done | simpl; by rewrite (capital_not_space c) |].
  cbn [app re_match_from match_item]. rewrite Hc.
  unfold chr_is at 1. rewrite Z.eqb_refl.
  apply greedy_run; [done | done |].
  rewrite <- (app_nil_r text) at 1.
  apply greedy_run; [done | done |]. reflexivity.
Qed.

Lemma X15_option_line_accepted_witness :
  option_line ([32; 32] ++ 66 :: 46 :: [9] ++ py "4 apples ")
  = Some ([66], strip (py "4 apples ")).
Proof.
  apply (X15_option_line_accepted [32; 32] 66 [9] (py "4 apples "));
    reflexivity.
Defined.

(** A greedy item matches when the rest of the pattern matches, with the
    same groups, wherever the item stops in [m]. *)
Lemma greedy_anywhere k cls tail g : forall m taken,
  (forall taken' m', m' `suffix_of` m -> k taken' (m' ++ tail) = Some g) ->
  stops cls tail = true ->
  greedy k cls taken (m ++ tail) = Some g.
Proof.
  induction m as [|c m IH]; intros taken Hk Htail.
  - simpl. specialize (Hk taken [] (suffix_nil _)). simpl in Hk.
    destruct tail as [|c tail]; simpl in *; [done|].
    destruct (cls c); [discriminate | done].
  - cbn [app greedy].
    destruct (cls c); [|apply (Hk taken (c :: m)); done].
    rewrite IH; [done | | done].
    intros taken' m' Hm'. apply Hk. by apply suffix_cons_r.
Qed.

Section AnswerLine.
Variables (groups : list str) (ws text : str).
Hypothesis Hws : forallb is_space ws = true.
Hypothesis Htext : forallb any_char text = true.
Hypothesis Hfirst : stops is_space text = true.
Hypothesis Hnonempty : text <> [].

Lemma after_colon_match :
  re_match_from after_colon groups (ws ++ text) = Some (groups ++ [text]).
Proof.
  unfold after_colon. cbn [re_match_from match_item].
  apply greedy_run; [done | done |].
  destruct text as [|c text'] eqn:Etext; [done|].
  simpl in Htext. apply andb_prop in Htext as [Hc Htext'].
  cbn [re_match_from match_item]. rewrite Hc.
  rewrite <- (app_nil_r text') at 1.
  apply greedy_run; [done | done |]. reflexivity.
Qed.

Lemma at_colon_match :
  re_match_from at_colon groups (58 :: ws ++ text) = Some (groups ++ [text]).
Proof.
  unfold at_colon. cbn [re_match_from match_item]. unfold chr_is.
  change (58 =? 41) with false. change (58 =? 58) with true. cbn iota.
  apply after_colon_match.
Qed.

(** Before the colon, only a closing parenthesis right before it lets the
    rest of the pattern match. *)
Lemma at_colon_early c m g :
  before_colon c = true ->
  forallb before_colon m = true ->
  re_match_from at_colon groups (c :: m ++ 58 :: ws ++ text) = Some g ->
  g = groups ++ [text].
Proof.
  intros Hc Hm. unfold before_colon in Hc.
  apply andb_prop in Hc as [Hcolon _]. apply negb_true_iff in Hcolon.
  unfold at_colon. cbn [re_match_from match_item]. unfold chr_is.
  rewrite Hcolon. destruct (c =? 41); [|done].
  destruct m as [|d m]; cbn [app].
  - change (58 =? 58) with true. cbn iota.
    rewrite after_colon_match. by intros [= <-].
  - simpl in Hm. apply andb_prop in Hm as [Hd _].
    unfold before_colon in Hd. apply andb_prop in Hd as [Hd _].
    apply negb_true_iff in Hd. by rewrite Hd.
Qed.

(** From any place before the colon, the lazy star reaches the colon. *)
Lemma to_colon_match : forall m taken,
  forallb before_colon m = true ->
  lazy (fun _ rest => re_match_from at_colon groups rest)
       any_char taken (m ++ 58 :: ws ++ text)
  = Some (groups ++ [text]).
Proof.
  induction m as [|c m IH]; intros taken Hm.
  - cbn [app lazy]. by rewrite at_colon_match.
  - simpl in Hm. apply andb_prop in Hm as [Hc Hm].
    cbn [app lazy].
    destruct (re_match_from at_colon groups (c :: m ++ 58 :: ws ++ text))
      as [g|] eqn:Hearly.
    + f_equal. by eapply at_colon_early.
    + unfold before_colon in Hc. apply andb_prop in Hc as [_ Hfeed].
      unfold any_char. rewrite Hfeed. by apply IH.
Qed.

Lemma after_space_match m :
  forallb before_colon m = true ->
  re_match_from after_space groups (m ++ 58 :: ws ++ text)
  = Some (groups ++ [text]).
Proof.
  intros Hm. unfold after_space, to_colon.
  cbn [re_match_from match_item].
  destruct m as [|c m]; cbn [app].
  - change (chr_is 40 58) with false. cbn iota.
    by apply (to_colon_match [] []).
  - destruct (chr_is 40 c).
    + simpl in Hm. apply andb_prop in Hm as [_ Hm].
      by rewrite (to_colon_match m [] Hm).
    + by apply (to_colon_match (c :: m) []).
Qed.

Lemma forallb_suffix {A} (f : A -> bool) (l k : list A) :
  l `suffix_of` k -> forallb f k = true -> forallb f l = true.
Proof.
  intros [pre ->]. rewrite forallb_app. by intros [_ H]%andb_prop.
Qed.

Lemma after_plural_match m :
  forallb before_colon m = true ->
  re_match_from after_plural groups (m ++ 58 :: ws ++ text)
  = Some (groups ++ [text]).
Proof.
  intros Hm. unfold after_plural. cbn [re_match_from match_item].
  apply greedy_anywhere; [|done].
  intros _ m' Hm'. apply after_space_match. by eapply forallb_suffix.
Qed.

Lemma after_answer_match m :
  forallb before_colon m = true ->
  re_match_from after_answer groups (m ++ 58 :: ws ++ text)
  = Some (groups ++ [text]).
Proof.
  intros Hm. unfold after_answer. cbn [re_match_from match_item].
  destruct m as [|c m]; cbn [app].
  - by apply (after_plural_match []).
  - destruct (chr_ci 115 c).
    + simpl in Hm. apply andb_prop in Hm as [_ Hm].
      by rewrite (after_plural_match m Hm).
    + by apply (after_plural_match (c :: m)).
Qed.
End AnswerLine.

Lemma same_ci_stops p word w :
  is_space p = false -> is_space (p - 32) = false ->
  negb (p =? 115) = true ->
  same_ci (p :: word) w = true -> stops is_space w = true.
Proof.
  intros Hp Hcap Hs. destruct w as [|c w]; [done|]. simpl.
  intros [Hc _]%andb_prop. unfold chr_ci, ascii_ci in Hc.
  apply negb_true_iff in Hs. rewrite Hs in Hc. simpl in Hc.
  rewrite orb_false_r in Hc.
  apply orb_prop in Hc as [Hc|Hc]; apply Z.eqb_eq in Hc as ->;
    by apply negb_true_iff.
Qed.

(** X14.  A line made of optional white space, the word "correct", some
    white space, the word "answer" (both in any case), any characters
    other than a colon and a line feed (a plural "s", a parenthesis), a
    colon, optional white space and a non-empty text without line feed is
    an answer line: the letters it records are the comma-separated tokens
    of the text after that first colon, stripped. *)
Theorem X14_answer_line_accepted :
  forall lead word1 w ws1 word2 mid ws text,
    forallb is_space lead = true ->
    same_ci (py "correct") word1 = true ->
    forallb is_space (w :: ws1) = true ->
    same_ci (py "answer") word2 = true ->
    forallb before_colon mid = true ->
    forallb is_space ws = true ->
    forallb any_char text = true -> stops is_space text = true ->
    text <> [] ->
    answer_line (lead ++ word1 ++ (w :: ws1) ++ word2 ++ mid
                 ++ 58 :: ws ++ text)
    = Some (split_letters (strip text)).
Proof.
  intros lead word1 w ws1 word2 mid ws text
         Hlead Hword1 Hws1 Hword2 Hmid Hws Htext Hfirst Hnonempty.
  assert (Hmatch : re_match CORRECT_RE
                     (lead ++ word1 ++ (w :: ws1) ++ word2 ++ mid
                      ++ 58 :: ws ++ text)
                   = Some [text]);
    [|unfold answer_line; by rewrite Hmatch].
  unfold re_match.
  change CORRECT_RE
    with (Item is_space Star false
          :: (lit_ci "correct"
              ++ Item is_space Plus false :: (lit_ci "answer" ++ after_answer))).
  cbn [re_match_from match_item].
  apply greedy_run; [done | |].
  { destruct word1 as [|c word1]; [done|]. cbn [app stops].
    by apply (same_ci_stops 99 (py "orrect") (c :: word1)). }
  unfold lit_ci. rewrite lit_ci_match by done.
  simpl in Hws1. apply andb_prop in Hws1 as [Hw Hws1].
  cbn [app re_match_from match_item]. rewrite Hw.
  apply greedy_run; [done | |].
  { destruct word2 as [|c word2]; [done|]. cbn [app stops].
    by apply (same_ci_stops 97 (py "nswer") (c :: word2)). }
  rewrite lit_ci_match by done.
  by apply after_answer_match.
Qed.

Lemma X14_answer_line_accepted_witness :
  answer_line ([] ++ py "Correct" ++ [32] ++ py "answer" ++ py "(s)"
               ++ 58 :: [32] ++ py "B, D")
  = Some (split_letters (strip (py "B, D"))).
Proof.
  apply (X14_answer_line_accepted [] (py "Correct") 32 [] (py "answer")
           (py "(s)") [32] (py "B, D"));
    try reflexivity.
  discriminate.
Defined.

(** ** How the parse of a category body is put together *)

Lemma parse_state_skip line lines cat_name :
  question_header line = None ->
  parse_state (line :: lines) cat_name = parse_state lines cat_name.
Proof.
  intros Hline. unfold parse_state. cbn [length].
  rewrite scan_S by done. unfold step. cbn [remaining]. rewrite Hline.
  cbn [out skipped_missing_answer printed].
  apply scan_enough; simpl; lia.
Qed.

(** X16.  The parse of a category body that starts with a question block
    (header, prompt, blank line, Options marker, option run) is the record
    of the block followed by the parse of what comes after it: the record
    has the ordinal of the header, the stripped prompt lines joined by
    single spaces, the option lines of the run that match (the others are
    passed over), and the letters of the answer line if one follows; the
    ordinal joins the skipped ones if none follows, and the parse goes on
    after the answer line, or at the line that is not one. *)
Theorem X16_parse_of_a_leading_block :
  forall cat_name b n tail,
    shaped b n = true -> follows b tail = true ->
    parse_category (block_lines b ++ tail) cat_name
    = let rest := parse_category (after_answer_at tail) cat_name in
      (block_record b n (default [] (answer_at tail)) :: rest.1.1,
       match answer_at tail with Some _ => [] | None => [n] end ++ rest.1.2,
       rest.2).
Proof.
  intros cat_name b n tail Hb Hf. unfold parse_category.
  by rewrite (parse_state_block cat_name b n tail Hb Hf).
Qed.

Lemma X16_parse_of_a_leading_block_witness :
  parse_category
    (block_lines block_2plus2
     ++ lines_of ["Correct Answer: B"; ""; "Question 2:"])
    (py "CSA EXAM QUESTIONS")
  = let rest :=
      parse_category
        (after_answer_at (lines_of ["Correct Answer: B"; ""; "Question 2:"]))
        (py "CSA EXAM QUESTIONS") in
    (block_record block_2plus2 1
       (default []
          (answer_at (lines_of ["Correct Answer: B"; ""; "Question 2:"])))
     :: rest.1.1,
     match answer_at (lines_of ["Correct Answer: B"; ""; "Question 2:"]) with
     | Some _ => []
     | None => [1]
     end ++ rest.1.2,
     rest.2).
Proof.
  apply (X16_parse_of_a_leading_block (py "CSA EXAM QUESTIONS") block_2plus2
           1 (lines_of ["Correct Answer: B"; ""; "Question 2:"]));
    reflexivity.
Defined.

(** X17.  Lines that are not question headers, standing where the scanner
    looks for a header (before the first block of a category body, or
    between blocks), are passed over: the parse of the body is the parse
    of the body without them. *)
Theorem X17_lines_outside_blocks_passed_over :
  forall junk lines cat_name,
    forallb (fun line => bool_decide (question_header line = None)) junk
    = true ->
    parse_category (junk ++ lines) cat_name = parse_category lines cat_name.
Proof.
  intros junk lines cat_name Hjunk. unfold parse_category.
  induction junk as [|line junk IH]; [done|].
  simpl in Hjunk. apply andb_prop in Hjunk as [Hline Hjunk].
  apply bool_decide_eq_true in Hline.
  cbn [app]. rewrite (parse_state_skip line _ cat_name Hline). by apply IH.
Qed.

Lemma X17_lines_outside_blocks_passed_over_witness :
  parse_category
    (lines_of ["Section A"; ""; "question 3: (lower case)"]
     ++ block_lines block_2plus2)
    (py "CSA EXAM QUESTIONS")
  = parse_category (block_lines block_2plus2) (py "CSA EXAM QUESTIONS").
Proof.
  apply (X17_lines_outside_blocks_passed_over
           (lines_of ["Section A"; ""; "question 3: (lower case)"])
           (block_lines block_2plus2) (py "CSA EXAM QUESTIONS")).
  reflexivity.
Defined.

(** X18.  For every category name, the ordinals listed as skipped are no
    more than the questions counted as skipped in the report: each listed
    ordinal is that of a question kept without answer letters, and a
    question whose answer line matched without recording a letter is
    counted but not listed. *)
Theorem X18_listing_within_count :
  forall raw_lines name,
    skipped_for raw_lines name
    `sublist_of`
    List.map num (filter no_letters (questions_for raw_lines name))
    /\ (length (skipped_for raw_lines name)
        <= length (filter no_letters (questions_for raw_lines name)))%nat.
Proof.
  intros raw_lines name.
  assert (Hsub : skipped_for raw_lines name
                 `sublist_of`
                 List.map num
                   (filter no_letters (questions_for raw_lines name))).
  { unfold skipped_for, questions_for.
    destruct (last_block raw_lines name) as [seg|]; simpl; [|done].
    unfold segment_questions, parse_category, parse_state. simpl.
    apply scan_skipped. simpl. constructor. }
  split; [done|]. apply sublist_length in Hsub.
  by rewrite length_map in Hsub.
Qed.

(** * Question blocks in whole runs *)

Lemma scan_plus a b cat_name : forall st,
  scan (a + b) cat_name st = scan b cat_name (scan a cat_name st).
Proof.
  induction a as [|a IH]; intros st; [done|]. simpl.
  destruct (remaining st) eqn:Hrem; [by rewrite scan_done | apply IH].
Qed.

(** The parse of a category body in which the scan arrives, after some
    iterations, at the header of a block. *)
Lemma parse_state_reaches cat_name body k b n tail :
  remaining (scan k cat_name (mk_pstate body [] [] [])) = block_lines b ++ tail ->
  shaped b n = true -> follows b tail = true ->
  parse_state body cat_name
  = frame (out (scan k cat_name (mk_pstate body [] [] []))
           ++ [block_record b n (default [] (answer_at tail))])
          (skipped_missing_answer (scan k cat_name (mk_pstate body [] [] []))
           ++ match answer_at tail with Some _ => [] | None => [n] end)
          (printed (scan k cat_name (mk_pstate body [] [] [])))
          (scan_from (length body) cat_name (after_answer_at tail)).
Proof.
  intros Hrem Hb Hf. unfold parse_state.
  rewrite (scan_enough (length body) (k + S (length body)))
    by (simpl; lia).
  rewrite scan_plus. by apply scan_block.
Qed.

(** The record of such a block among the questions kept for the name of
    a last block, and its ordinal among the skipped ones when no answer
    line follows it. *)
Lemma reached_block_kept raw_lines name body k b n tail :
  last_block raw_lines name = Some (name, body) ->
  remaining (scan k name (mk_pstate body [] [] [])) = block_lines b ++ tail ->
  shaped b n = true -> follows b tail = true ->
  (exists qs1 qs2,
     questions_for raw_lines name
     = qs1 ++ block_record b n (default [] (answer_at tail)) :: qs2)
  /\ (answer_at tail = None -> n ∈ skipped_for raw_lines name).
Proof.
  intros Hlast Hrem Hb Hf.
  pose proof (parse_state_reaches name body k b n tail Hrem Hb Hf) as Hparse.
  unfold questions_for, skipped_for. rewrite Hlast. simpl.
  unfold segment_questions, parse_category. simpl. rewrite Hparse.
  unfold frame. simpl. split.
  - eexists _, _. by rewrite <- app_assoc.
  - intros ->. apply list_elem_of_In, in_or_app. left.
    apply in_or_app. right. by left.
Qed.

(** A run that completes, at one entry of the mapping table: the records
    under the key of the entry are those of the filter step on the
    questions kept for its name, and the lines of the entry are on the
    console. *)
Lemma main_entry text obj lg entry :
  main text = Ok (obj, lg) -> entry ∈ mapping ->
  exists m,
    convert_all ([], O) (questions_for (splitlines text) entry.1)
    = Ok (js_get obj entry.2, m)
    /\ forall line,
         line ∈ category_lines (splitlines text) entry
                  (length (js_get obj entry.2)) m ->
         line ∈ lg.
Proof.
  intros Hmain Hentry.
  apply main_done in Hmain as (done & Hdone & -> & ->).
  unfold mapping in *.
  repeat (apply Forall2_cons_inv_l in Hdone as (? & ? & ? & Hdone & ->)).
  apply Forall2_nil_inv_l in Hdone as ->.
  repeat match goal with
         | d : (list js_record * nat)%type |- _ => destruct d as [? ?]
         end.
  cbn [fst snd combine List.map concat] in *.
  repeat (apply elem_of_cons in Hentry as [->|Hentry]);
    [..|by apply not_elem_of_nil in Hentry];
    eexists; (split; [eassumption|]);
    intros line Hline;
    match type of Hline with
    | context [js_get ?o ?key] =>
        let records := eval vm_compute in (js_get o key) in
        change (js_get o key) with records in Hline
    end;
    rewrite !elem_of_app; tauto.
Qed.

Lemma Forall2_partner {A B} (P : A -> B -> Prop) (l : list A) (k : list B) y :
  Forall2 P l k -> y ∈ k -> exists x, x ∈ l /\ P x y.
Proof.
  induction 1 as [|x y' l k Hxy _ IH]; [by intros H%not_elem_of_nil|].
  intros [->|Hy]%elem_of_cons.
  - exists x. split; [by left | done].
  - destruct (IH Hy) as (x' & Hx' & HP). exists x'. split; [by right | done].
Qed.

Lemma no_option_lines b :
  forallb (fun line => bool_decide (option_line line = None))
          (b_option_run b) = true ->
  block_options b = [].
Proof.
  unfold block_options. intros Hnone.
  induction (b_option_run b) as [|line run IH]; [done|].
  simpl in *. apply andb_prop in Hnone as [Hline Hrun].
  apply bool_decide_eq_true in Hline. rewrite Hline. auto.
Qed.

(** C4, counterexample.  A block with an Options section and no answer
    line, in a category whose name is not in the mapping table: the
    parser lists its ordinal as skipped, and the run prints no listing at
    all. *)
Lemma C4_unmapped_block_not_listed :
  exists obj lg,
    main unmapped_unanswered = Ok (obj, lg)
    /\ segments (splitlines unmapped_unanswered)
       = [(py "FOO", block_lines block_2plus2 ++ lines_of ["Answer: B"])]
    /\ shaped block_2plus2 1 = true
    /\ follows block_2plus2 (lines_of ["Answer: B"]) = true
    /\ answer_at (lines_of ["Answer: B"]) = None
    /\ (parse_category (block_lines block_2plus2 ++ lines_of ["Answer: B"])
                       (py "FOO")).1.2 = [1]
    /\ forall name nums, ~ In (SkippedListing name nums) lg.
Proof.
  eexists _, _. split; [vm_compute; reflexivity|].
  split_and!; try (vm_compute; reflexivity).
  intros name nums Hin. simpl in Hin.
  repeat (destruct Hin as [Hin|Hin]; [discriminate|]). done.
Qed.

(** C4 (amended).  A block with an Options section that no answer line
    follows (the next line does not match the answer pattern, or the input
    ends), met by the scan of the last category block of the input that
    bears a name of the mapping table, in a run that completes: the
    parsed block is kept, with an empty list of answer letters, among the
    questions of the category before the filter step; the records of the
    output under the key of the category are made from the other
    questions, so that the block is left out of the output; and the
    console has the listing of the skipped ordinals of the category, with
    the ordinal of the block in it. *)
Theorem C4_unanswered_block_listed_and_dropped :
  forall text name key body k b n tail obj lg,
    In (name, key) mapping ->
    last_block (splitlines text) name = Some (name, body) ->
    remaining (scan k name (mk_pstate body [] [] [])) = block_lines b ++ tail ->
    shaped b n = true -> follows b tail = true ->
    answer_at tail = None ->
    main text = Ok (obj, lg) ->
    (exists qs1 qs2,
       questions_for (splitlines text) name
       = qs1 ++ block_record b n [] :: qs2
       /\ Forall2 made_from (js_get obj key)
                  (filter has_letters (qs1 ++ qs2)))
    /\ exists nums, In n nums /\ In (SkippedListing name nums) lg.
Proof.
  intros text name key body k b n tail obj lg
         Hentry Hlast Hrem Hb Hf Hnone Hmain.
  destruct (reached_block_kept _ name body k b n tail Hlast Hrem Hb Hf)
    as [(qs1 & qs2 & Hqs) Hskipped].
  rewrite Hnone in Hqs. simpl in Hqs. specialize (Hskipped Hnone).
  apply list_elem_of_In in Hentry.
  destruct (main_entry text obj lg (name, key) Hmain Hentry)
    as (m & Hconv & Hlines).
  cbn [fst snd] in *. split.
  - exists qs1, qs2. split; [done|].
    apply convert_all_records in Hconv as (new & Hnew & Hmade & _).
    simpl in Hnew. rewrite Hnew. rewrite Hqs in Hmade.
    rewrite filter_app, filter_cons_False in Hmade
      by (unfold has_letters; simpl; intros H; by apply H).
    by rewrite filter_app.
  - destruct (skipped_for (splitlines text) name) as [|n0 nums] eqn:Hs;
      [by apply not_elem_of_nil in Hskipped|].
    exists (n0 :: nums). split; [by apply list_elem_of_In|].
    apply list_elem_of_In, Hlines. unfold category_lines. cbn [fst snd].
    rewrite Hs. apply elem_of_cons. right. by apply list_elem_of_singleton.
Qed.

Lemma C4_unanswered_block_listed_and_dropped_witness :
  exists obj lg,
    main (scenario "Answer: B") = Ok (obj, lg)
    /\ (exists qs1 qs2,
          questions_for (splitlines (scenario "Answer: B"))
                        (py "CSA EXAM QUESTIONS")
          = qs1 ++ block_record block_2plus2 1 [] :: qs2
          /\ Forall2 made_from (js_get obj (py "csa"))
                     (filter has_letters (qs1 ++ qs2)))
    /\ exists nums,
         In 1 nums /\ In (SkippedListing (py "CSA EXAM QUESTIONS") nums) lg.
Proof.
  eexists _, _. split; [vm_compute; reflexivity|].
  apply (C4_unanswered_block_listed_and_dropped
           (scenario "Answer: B") (py "CSA EXAM QUESTIONS") (py "csa")
           (block_lines block_2plus2 ++ lines_of ["Answer: B"]) O
           block_2plus2 1 (lines_of ["Answer: B"]));
    try (vm_compute; reflexivity).
  simpl. tauto.
Defined.

(** C9, counterexample.  A block with an Options marker, no option line
    and an answer letter, in a category whose name is not in the mapping
    table: the parser keeps the question, with no option, and the output
    holds no record. *)
Lemma C9_unmapped_block_not_in_output :
  segments (splitlines unmapped_no_option_lines)
  = [(py "FOO",
      block_lines block_no_option_lines ++ lines_of ["Correct Answer: A"])]
  /\ shaped block_no_option_lines 7 = true
  /\ follows block_no_option_lines (lines_of ["Correct Answer: A"]) = true
  /\ block_options block_no_option_lines = []
  /\ (parse_category
        (block_lines block_no_option_lines ++ lines_of ["Correct Answer: A"])
        (py "FOO")).1.1
     = [mk_parsed 7 (py "Which one?") [] [py "A"]]
  /\ js_output unmapped_no_option_lines = Ok empty_output.
Proof. split_and!; vm_compute; reflexivity. Qed.

(** C9 (amended).  A block with an Options marker whose option run holds
    no line that matches the option pattern, followed by an answer line
    that records at least one letter, met by the scan of the last
    category block of the input that bears a name of the mapping table,
    in a run that completes: the question is kept by the parser with an
    empty list of options, and the output has, under the key of the
    category, a record made from it, with the ordinal and the prompt of
    the block and an empty list of options: the filter step does not
    drop a question for having no option. *)
Theorem C9_block_without_option_lines_in_output :
  forall text name key body k b n tail l letters obj lg,
    In (name, key) mapping ->
    last_block (splitlines text) name = Some (name, body) ->
    remaining (scan k name (mk_pstate body [] [] [])) = block_lines b ++ tail ->
    shaped b n = true -> follows b tail = true ->
    forallb (fun line => bool_decide (option_line line = None))
            (b_option_run b) = true ->
    answer_at tail = Some (l :: letters) ->
    main text = Ok (obj, lg) ->
    In (mk_parsed n (block_question b) [] (l :: letters))
       (questions_for (splitlines text) name)
    /\ exists r,
         In r (js_get obj key)
         /\ js_id r = n /\ js_question r = block_question b
         /\ js_options r = []
         /\ letter_indices (l :: letters)
            = Ok (correct_indices (correct r)).
Proof.
  intros text name key body k b n tail l letters obj lg
         Hentry Hlast Hrem Hb Hf Hnone Hanswer Hmain.
  destruct (reached_block_kept _ name body k b n tail Hlast Hrem Hb Hf)
    as [(qs1 & qs2 & Hqs) _].
  rewrite Hanswer in Hqs. simpl in Hqs.
  unfold block_record in Hqs. rewrite (no_option_lines b Hnone) in Hqs.
  set (q := mk_parsed n (block_question b) [] (l :: letters)) in *.
  assert (Hq : q ∈ questions_for (splitlines text) name)
    by (rewrite Hqs; apply elem_of_app; right; by left).
  split; [by apply list_elem_of_In|].
  apply list_elem_of_In in Hentry.
  destruct (main_entry text obj lg (name, key) Hmain Hentry)
    as (m & Hconv & _).
  cbn [fst snd] in *.
  apply convert_all_records in Hconv as (new & Hnew & Hmade & _).
  simpl in Hnew. rewrite Hnew.
  assert (Hkept : q ∈ filter has_letters (questions_for (splitlines text) name))
    by (apply list_elem_of_filter; split; [done | exact Hq]).
  destruct (Forall2_partner _ _ _ _ Hmade Hkept)
    as (r & Hr & Hid & Hquestion & Hoptions & Hindices).
  exists r. split_and!; try done. by apply list_elem_of_In.
Qed.

Lemma C9_block_without_option_lines_in_output_witness :
  exists obj lg,
    main mapped_no_option_lines = Ok (obj, lg)
    /\ In (mk_parsed 7 (block_question block_no_option_lines) [] [py "A"])
          (questions_for (splitlines mapped_no_option_lines)
                         (py "YOUTUBE DUMPS"))
    /\ exists r,
         In r (js_get obj (py "youtube"))
         /\ js_id r = 7
         /\ js_question r = block_question block_no_option_lines
         /\ js_options r = []
         /\ letter_indices [py "A"] = Ok (correct_indices (correct r)).
Proof.
  destruct (main mapped_no_option_lines) as [[obj lg]|] eqn:Hmain;
    [|vm_compute in Hmain; discriminate].
  exists obj, lg. split; [reflexivity|].
  apply (C9_block_without_option_lines_in_output
           mapped_no_option_lines (py "YOUTUBE DUMPS") (py "youtube")
           (block_lines block_no_option_lines
            ++ lines_of ["Correct Answer: A"]) O
           block_no_option_lines 7 (lines_of ["Correct Answer: A"])
           (py "A") [] obj lg);
    [simpl; tauto | vm_compute; reflexivity | vm_compute; reflexivity
     | vm_compute; reflexivity | vm_compute; reflexivity
     | vm_compute; reflexivity | vm_compute; reflexivity | exact Hmain].
Defined.

(** C7 (amended).  The output is a function of the input text.  In every
    run that completes, the keys of the output are those of the static
    mapping table, in the order of the table, whatever the order of the
    categories in the input; under the key of each entry the records are
    made, one for one and in the same order, from the questions with
    answer letters that the parser returned for the last category block
    bearing the name of the entry; and the parser returns the questions
    of a block in the order of their header lines in the block. *)
Theorem C7_output_order_of_keys_and_questions :
  forall text obj lg,
    main text = Ok (obj, lg) ->
    List.map fst obj = List.map snd mapping
    /\ Forall2 (fun item entry =>
                  item.1 = entry.2
                  /\ Forall2 made_from item.2
                       (filter has_letters
                               (questions_for (splitlines text) entry.1)))
               obj mapping
    /\ forall name seg,
         last_block (splitlines text) name = Some seg ->
         List.map num (questions_for (splitlines text) name)
         `sublist_of` omap question_header seg.2.
Proof.
  intros text obj lg Hmain.
  apply main_done in Hmain as (done & Hdone & -> & _).
  split_and!.
  - clear -Hdone.
    induction Hdone as [|entry d entries done _ _ IH]; [done|].
    cbn [combine List.map fst snd]. by rewrite IH.
  - induction Hdone as [|entry [records m] entries done Hentry _ IH];
      cbn [combine List.map]; constructor; [|done].
    split; [done|]. cbn [fst snd].
    by apply convert_all_records in Hentry as (new & -> & Hnew & _ & _).
  - intros name seg Hlast. unfold questions_for. rewrite Hlast. simpl.
    unfold segment_questions, parse_category, parse_state. simpl.
    apply scan_out_order.
Qed.

Lemma C7_output_order_of_keys_and_questions_witness :
  exists obj lg,
    main youtube_then_csa = Ok (obj, lg)
    /\ List.map fst obj = List.map snd mapping
    /\ Forall2 (fun item entry =>
                  item.1 = entry.2
                  /\ Forall2 made_from item.2
                       (filter has_letters
                               (questions_for (splitlines youtube_then_csa)
                                              entry.1)))
               obj mapping
    /\ forall name seg,
         last_block (splitlines youtube_then_csa) name = Some seg ->
         List.map num (questions_for (splitlines youtube_then_csa) name)
         `sublist_of` omap question_header seg.2.
Proof.
  eexists _, _. split; [vm_compute; reflexivity|].
  eapply (C7_output_order_of_keys_and_questions youtube_then_csa).
  vm_compute. reflexivity.
Defined.
